(** * FLAMESEMUV0: the memory bus of the emulator

    A shallow embedding of the [Memory] class of [FLAMESEMUV0.cpp] (the two
    RAM regions with their address windows and the three memory-mapped
    registers) together with the three peripheral classes it calls into,
    followed by the properties of [read32] and [write32].

    Conventions of the embedding:
    - a [uint32_t] is a [Z] in [[0, 2^32)]; every arithmetic operation that
      C++ performs modulo [2^32] is written with [wrap32];
    - a [std::vector<uint8_t>] is a finite map from index to byte in which
      an absent index holds 0, the value the constructor's [memset] leaves;
    - the raw pointers [Video*], [Audio*], [Input*] are optional references
      ([None] is [nullptr]) into stores of peripheral objects that live
      outside the [Memory];
    - [SDL_Log] and the calls into the peripherals are recorded, in order,
      as a list of events returned next to the result. *)

From Stdlib Require Import ZArith Lia Bool String List.
From stdpp Require Import base option functions gmap.

Local Open Scope Z_scope.

(** ** Machine integers *)

Definition wrap32 (z : Z) : Z := z mod 2 ^ 32.
Definition wrap8 (z : Z) : Z := z mod 2 ^ 8.

Definition is_uint32 (z : Z) : Prop := 0 <= z < 2 ^ 32.
Definition is_uint8 (z : Z) : Prop := 0 <= z < 2 ^ 8.

(** [x << n] on [uint32_t] operands. *)
Definition shl32 (x n : Z) : Z := wrap32 (Z.shiftl x n).

Definition is_pow2 (n : Z) : Prop := exists k : Z, 0 <= k /\ n = 2 ^ k.

(** ** Constants (lines 11-17) *)

Definition MEM1_SIZE : Z := wrap32 (24 * 1024 * 1024).
Definition MEM2_SIZE : Z := wrap32 (64 * 1024 * 1024).

Definition REG_VIDEO_BG_COLOR : Z := 0x0D000000.
Definition REG_INPUT_STATE : Z := 0x0D000004.
Definition REG_AUDIO_FREQ : Z := 0x0D000008.

(** ** Peripherals

    Only the members that the bus reaches are kept; the SDL handles of
    [Video] and [Audio] and the oscillator phase play no part in it.
    [Audio::frequency] is a [double]; the bus only ever stores
    [(double)value] for a [uint32_t] value, which is exact, so the field
    holds that integer. *)

Record Video := mkVideo { bgColor : Z }.
Record Audio := mkAudio { frequency : Z }.
Record Input := mkInput { buttonState : Z }.

Definition ptr := nat.

(** ** The bus object (lines 132-139) *)

Record Memory := mkMemory {
  mem1 : gmap Z Z;
  mem2 : gmap Z Z;
  video : option ptr;
  audio : option ptr;
  input : option ptr;
  videoBgColor : Z;
  audioFreqValue : Z
}.

(** [v[i]] for a byte vector. *)
Definition byte_at (v : gmap Z Z) (i : Z) : Z := default 0 (v !! i).

(** ** The whole machine: the bus and the peripheral objects around it *)

Record Machine := mkMachine {
  memory : Memory;
  videos : ptr -> Video;
  audios : ptr -> Audio;
  inputs : ptr -> Input
}.

Inductive event : Type :=
| SDL_Log (fmt : string) (args : list Z)
| call_setBackgroundColor (p : ptr) (color : Z)
| call_setToneFrequency (p : ptr) (freq : Z)
| call_getButtonState (p : ptr).

(** The events that are calls into a peripheral. *)
Definition is_peripheral_call (e : event) : bool :=
  match e with
  | SDL_Log _ _ => false
  | _ => true
  end.

Definition peripheral_calls (t : list event) : list event :=
  List.filter is_peripheral_call t.

(** ** A state monad with an event log *)

Definition M (A : Type) : Type := Machine -> A * Machine * list event.

Definition ret {A} (a : A) : M A := fun s => (a, s, []).

Definition bind {A B} (m : M A) (k : A -> M B) : M B :=
  fun s =>
    let '(a, s1, t1) := m s in
    let '(b, s2, t2) := k a s1 in
    (b, s2, t1 ++ t2).

Declare Scope bus_scope.
Delimit Scope bus_scope with bus.
Notation "'let*' x ':=' m 'in' k" := (bind m (fun x => k))
  (at level 10, x name, m at level 100, k at level 200) : bus_scope.
Notation "m ';;' k" := (bind m (fun _ => k))
  (at level 100, k at level 200, right associativity) : bus_scope.
Local Open Scope bus_scope.

Definition gets {A} (f : Machine -> A) : M A := fun s => (f s, s, []).
Definition modify (f : Machine -> Machine) : M unit := fun s => (tt, f s, []).
Definition emit (e : event) : M unit := fun s => (tt, s, [e]).

Definition result {A} (r : A * Machine * list event) : A := fst (fst r).
Definition final {A} (r : A * Machine * list event) : Machine := snd (fst r).
Definition events {A} (r : A * Machine * list event) : list event := snd r.

(** Field updates. *)

Definition set_memory (f : Memory -> Memory) (s : Machine) : Machine :=
  mkMachine (f (memory s)) (videos s) (audios s) (inputs s).

Definition with_mem1 (v : gmap Z Z) (m : Memory) : Memory :=
  mkMemory v (mem2 m) (video m) (audio m) (input m) (videoBgColor m) (audioFreqValue m).
Definition with_mem2 (v : gmap Z Z) (m : Memory) : Memory :=
  mkMemory (mem1 m) v (video m) (audio m) (input m) (videoBgColor m) (audioFreqValue m).
Definition with_video (p : option ptr) (m : Memory) : Memory :=
  mkMemory (mem1 m) (mem2 m) p (audio m) (input m) (videoBgColor m) (audioFreqValue m).
Definition with_audio (p : option ptr) (m : Memory) : Memory :=
  mkMemory (mem1 m) (mem2 m) (video m) p (input m) (videoBgColor m) (audioFreqValue m).
Definition with_input (p : option ptr) (m : Memory) : Memory :=
  mkMemory (mem1 m) (mem2 m) (video m) (audio m) p (videoBgColor m) (audioFreqValue m).
Definition with_videoBgColor (c : Z) (m : Memory) : Memory :=
  mkMemory (mem1 m) (mem2 m) (video m) (audio m) (input m) c (audioFreqValue m).
Definition with_audioFreqValue (f : Z) (m : Memory) : Memory :=
  mkMemory (mem1 m) (mem2 m) (video m) (audio m) (input m) (videoBgColor m) f.

(** ** Peripheral methods *)

(** [Video::setBackgroundColor] (lines 176-178), called through [p]. *)
Definition Video_setBackgroundColor (p : ptr) (color : Z) : M unit :=
  emit (call_setBackgroundColor p color);;
  modify (fun s => mkMachine (memory s) (<[p := mkVideo color]> (videos s))
                             (audios s) (inputs s)).

(** [Audio::setToneFrequency] (lines 235-237), called through [p]. *)
Definition Audio_setToneFrequency (p : ptr) (freq : Z) : M unit :=
  emit (call_setToneFrequency p freq);;
  modify (fun s => mkMachine (memory s) (videos s)
                             (<[p := mkAudio freq]> (audios s)) (inputs s)).

(** [Input::getButtonState] (lines 298-300), called through [p]. *)
Definition Input_getButtonState (p : ptr) : M Z :=
  emit (call_getButtonState p);;
  gets (fun s => buttonState (inputs s p)).

(** [Input::shouldQuit] (lines 302-304). *)
Definition Input_shouldQuit (i : Input) : bool :=
  negb (Z.land (buttonState i) 0x80000000 =? 0).

(** ** The bus: construction and binding (lines 26-43) *)

Definition Memory_new : Memory :=
  mkMemory ∅ ∅ None None None 0x00000000 0.

Definition connectVideo (v : option ptr) : M unit := modify (set_memory (with_video v)).
Definition connectAudio (a : option ptr) : M unit := modify (set_memory (with_audio a)).
Definition connectInput (i : option ptr) : M unit := modify (set_memory (with_input i)).

(** ** Address windows (the conditions of lines 48-49, 62-63, 91-92, 104-105) *)

Definition in_MEM1_window (address : Z) : bool :=
  ((0x80000000 <=? address) && (address <? wrap32 (0x80000000 + MEM1_SIZE)))
  || ((0xC0000000 <=? address) && (address <? wrap32 (0xC0000000 + MEM1_SIZE))).

Definition in_MEM2_window (address : Z) : bool :=
  ((0x90000000 <=? address) && (address <? wrap32 (0x90000000 + MEM2_SIZE)))
  || ((0xD0000000 <=? address) && (address <? wrap32 (0xD0000000 + MEM2_SIZE))).

(** [address & (MEM1_SIZE - 1)] and [address & (MEM2_SIZE - 1)]. *)
Definition MEM1_offset (address : Z) : Z := Z.land address (wrap32 (MEM1_SIZE - 1)).
Definition MEM2_offset (address : Z) : Z := Z.land address (wrap32 (MEM2_SIZE - 1)).

(** [(b0 << 24) | (b1 << 16) | (b2 << 8) | b3] (lines 58 and 71). *)
Definition combine32 (b0 b1 b2 b3 : Z) : Z :=
  Z.lor (Z.lor (Z.lor (shl32 b0 24) (shl32 b1 16)) (shl32 b2 8)) b3.

(** The four stores of lines 97-100 and 109-112 on a byte vector; each
    right-hand side is converted to [uint8_t] by the assignment. *)
Definition store32 (v : gmap Z Z) (offset value : Z) : gmap Z Z :=
  let v0 := <[offset := wrap8 (Z.land (Z.shiftr value 24) 0xFF)]> v in
  let v1 := <[wrap32 (offset + 1) := wrap8 (Z.land (Z.shiftr value 16) 0xFF)]> v0 in
  let v2 := <[wrap32 (offset + 2) := wrap8 (Z.land (Z.shiftr value 8) 0xFF)]> v1 in
  <[wrap32 (offset + 3) := wrap8 (Z.land value 0xFF)]> v2.

(** The four loads of lines 54-58 and 67-71 on a byte vector. *)
Definition load32 (v : gmap Z Z) (offset : Z) : Z :=
  let b0 := byte_at v offset in
  let b1 := byte_at v (wrap32 (offset + 1)) in
  let b2 := byte_at v (wrap32 (offset + 2)) in
  let b3 := byte_at v (wrap32 (offset + 3)) in
  combine32 b0 b1 b2 b3.

(** ** [Memory::read32] (lines 46-87) *)

Definition read32 (address : Z) : M Z :=
  if in_MEM1_window address then
    let offset := MEM1_offset address in
    if wrap32 (offset + 3) <? MEM1_SIZE then
      gets (fun s => load32 (mem1 (memory s)) offset)
    else
      emit (SDL_Log "MEM1 read out of range: 0x%08X" [address]);;
      ret 0
  else if in_MEM2_window address then
    let offset := MEM2_offset address in
    if wrap32 (offset + 3) <? MEM2_SIZE then
      gets (fun s => load32 (mem2 (memory s)) offset)
    else
      emit (SDL_Log "MEM2 read out of range: 0x%08X" [address]);;
      ret 0
  else
    if address =? REG_VIDEO_BG_COLOR then
      gets (fun s => videoBgColor (memory s))
    else if address =? REG_INPUT_STATE then
      let* i := gets (fun s => input (memory s)) in
      match i with
      | Some p => Input_getButtonState p
      | None => ret 0
      end
    else if address =? REG_AUDIO_FREQ then
      gets (fun s => audioFreqValue (memory s))
    else
      emit (SDL_Log "Unhandled read from address 0x%08X" [address]);;
      ret 0.

(** ** [Memory::write32] (lines 90-130) *)

Definition write32 (address value : Z) : M unit :=
  if in_MEM1_window address then
    let offset := MEM1_offset address in
    if wrap32 (offset + 3) <? MEM1_SIZE then
      modify (set_memory (fun m => with_mem1 (store32 (mem1 m) offset value) m))
    else
      emit (SDL_Log "MEM1 write out of range: 0x%08X" [address])
  else if in_MEM2_window address then
    let offset := MEM2_offset address in
    if wrap32 (offset + 3) <? MEM2_SIZE then
      modify (set_memory (fun m => with_mem2 (store32 (mem2 m) offset value) m))
    else
      emit (SDL_Log "MEM2 write out of range: 0x%08X" [address])
  else
    if address =? REG_VIDEO_BG_COLOR then
      modify (set_memory (with_videoBgColor value));;
      let* v := gets (fun s => video (memory s)) in
      match v with
      | Some p => Video_setBackgroundColor p value
      | None => ret tt
      end
    else if address =? REG_INPUT_STATE then
      emit (SDL_Log "Ignoring write to input state register" [])
    else if address =? REG_AUDIO_FREQ then
      modify (set_memory (with_audioFreqValue value));;
      let* a := gets (fun s => audio (memory s)) in
      match a with
      | Some p => Audio_setToneFrequency p value
      | None => ret tt
      end
    else
      emit (SDL_Log "Unhandled write to address 0x%08X: value 0x%08X" [address; value]).

(** ** The two RAM regions, for stating properties of both at once

    [read32] and [write32] treat MEM1 and MEM2 with the same code up to the
    names; [region] indexes the two copies. *)

Inductive region : Type := MEM1 | MEM2.

Definition region_size (r : region) : Z :=
  match r with MEM1 => MEM1_SIZE | MEM2 => MEM2_SIZE end.

Definition in_window (r : region) (address : Z) : bool :=
  match r with MEM1 => in_MEM1_window address | MEM2 => in_MEM2_window address end.

Definition region_offset (r : region) (address : Z) : Z :=
  match r with MEM1 => MEM1_offset address | MEM2 => MEM2_offset address end.

Definition backing (r : region) (m : Memory) : gmap Z Z :=
  match r with MEM1 => mem1 m | MEM2 => mem2 m end.

Definition with_backing (r : region) (v : gmap Z Z) (m : Memory) : Memory :=
  match r with MEM1 => with_mem1 v m | MEM2 => with_mem2 v m end.

(** The region whose branch [read32] and [write32] take, in their order. *)
Definition region_of (address : Z) : option region :=
  if in_MEM1_window address then Some MEM1
  else if in_MEM2_window address then Some MEM2
  else None.

(** The base of each window with its region. *)
Definition RAM_windows : list (Z * region) :=
  [(0x80000000, MEM1); (0xC0000000, MEM1); (0x90000000, MEM2); (0xD0000000, MEM2)].

(** The two bases of each region. *)
Definition primary_base (r : region) : Z :=
  match r with MEM1 => 0x80000000 | MEM2 => 0x90000000 end.
Definition alias_base (r : region) : Z :=
  match r with MEM1 => 0xC0000000 | MEM2 => 0xD0000000 end.

(** The diagnostics of lines 60, 73, 102 and 114. *)
Definition read_range_fmt (r : region) : string :=
  match r with
  | MEM1 => "MEM1 read out of range: 0x%08X"
  | MEM2 => "MEM2 read out of range: 0x%08X"
  end.

Definition write_range_fmt (r : region) : string :=
  match r with
  | MEM1 => "MEM1 write out of range: 0x%08X"
  | MEM2 => "MEM2 write out of range: 0x%08X"
  end.

(** A sequence of writes, in order. *)
Fixpoint write_all (ws : list (Z * Z)) : M unit :=
  match ws with
  | [] => ret tt
  | (a, v) :: ws' => write32 a v;; write_all ws'
  end.

(** The machine right after [WiiEmulator]'s members are constructed, before
    [init] binds anything (lines 26-38, 145, 207, 267).  The initial tone
    frequency 440.0 is the integer 440. *)
Definition machine0 : Machine :=
  mkMachine Memory_new (fun _ => mkVideo 0) (fun _ => mkAudio 440) (fun _ => mkInput 0).


(** [WiiEmulator::init] binds the emulator's own three peripherals (lines
    326-328); each is the object at index 0 of its store. *)
Definition WiiEmulator_connect : M unit :=
  connectVideo (Some 0%nat);;
  connectAudio (Some 0%nat);;
  connectInput (Some 0%nat).

(** ** Values within their C++ types *)

Definition bytes_ok (v : gmap Z Z) : Prop := forall i, is_uint8 (byte_at v i).

Definition Machine_ok (s : Machine) : Prop :=
  bytes_ok (mem1 (memory s)) /\ bytes_ok (mem2 (memory s))
  /\ is_uint32 (videoBgColor (memory s)) /\ is_uint32 (audioFreqValue (memory s))
  /\ forall p, is_uint32 (buttonState (inputs s p)).

(** ** [Input::update] (lines 269-296)

    The SDL types are not part of the repository; an event is kept up to
    what [update] looks at: its type and, for key events, the key.
    [SDLK_other] and [SDL_OTHEREVENT] stand for every key and every event
    type that the two [switch]es and the [if] chain have no case for. *)

Inductive SDL_Keycode : Type :=
| SDLK_UP | SDLK_DOWN | SDLK_LEFT | SDLK_RIGHT | SDLK_a | SDLK_b | SDLK_SPACE
| SDLK_other.

Inductive SDL_Event : Type :=
| SDL_QUIT
| SDL_KEYDOWN (sym : SDL_Keycode)
| SDL_KEYUP (sym : SDL_Keycode)
| SDL_OTHEREVENT.

(** [buttonState |= mask], with [mask] already a [uint32_t] value. *)
Definition set_bits (st mask : Z) : Z := Z.lor st mask.

(** [buttonState &= ~mask]: [~mask] is computed on [int] and converted to
    [uint32_t] for the conjunction. *)
Definition clear_bits (st mask : Z) : Z := Z.land st (wrap32 (Z.lnot mask)).

(** The body of the [while] loop for one polled event. *)
Definition Input_handle (st : Z) (e : SDL_Event) : Z :=
  match e with
  | SDL_QUIT => set_bits st 0x80000000
  | SDL_KEYDOWN sym =>
      match sym with
      | SDLK_UP => set_bits st 0x00000001
      | SDLK_DOWN => set_bits st 0x00000002
      | SDLK_LEFT => set_bits st 0x00000004
      | SDLK_RIGHT => set_bits st 0x00000008
      | SDLK_a => set_bits st 0x00000010
      | SDLK_b => set_bits st 0x00000020
      | SDLK_SPACE => set_bits st 0x00000040
      | SDLK_other => st
      end
  | SDL_KEYUP sym =>
      match sym with
      | SDLK_UP => clear_bits st 0x00000001
      | SDLK_DOWN => clear_bits st 0x00000002
      | SDLK_LEFT => clear_bits st 0x00000004
      | SDLK_RIGHT => clear_bits st 0x00000008
      | SDLK_a => clear_bits st 0x00000010
      | SDLK_b => clear_bits st 0x00000020
      | SDLK_SPACE => clear_bits st 0x00000040
      | SDLK_other => st
      end
  | SDL_OTHEREVENT => st
  end.

(** [update] with [polled] the events that [SDL_PollEvent] hands out, in
    order, until it returns 0. *)
Definition Input_update (polled : list SDL_Event) (i : Input) : Input :=
  mkInput (fold_left Input_handle polled (buttonState i)).

(** The bit of [buttonState] that a key drives, if any. *)
Definition key_bit (sym : SDL_Keycode) : option Z :=
  match sym with
  | SDLK_UP => Some 0 | SDLK_DOWN => Some 1 | SDLK_LEFT => Some 2
  | SDLK_RIGHT => Some 3 | SDLK_a => Some 4 | SDLK_b => Some 5
  | SDLK_SPACE => Some 6 | SDLK_other => None
  end.

(** What the events say last about bit [n]: [Some true] when the last event
    that touches it sets it, [Some false] when it clears it, [None] when no
    event touches it.  Bit 31 is set by [SDL_QUIT] and cleared by nothing. *)
Definition touches (n : Z) (e : SDL_Event) : option bool :=
  match e with
  | SDL_QUIT => if n =? 31 then Some true else None
  | SDL_KEYDOWN sym => if decide (key_bit sym = Some n) then Some true else None
  | SDL_KEYUP sym => if decide (key_bit sym = Some n) then Some false else None
  | SDL_OTHEREVENT => None
  end.

Fixpoint last_touch (n : Z) (polled : list SDL_Event) : option bool :=
  match polled with
  | [] => None
  | e :: rest =>
      match last_touch n rest with
      | Some b => Some b
      | None => touches n e
      end
  end.

(** ** [Video::render] (lines 180-196)

    The calls made on the renderer, in order. *)

Inductive SDL_render_call : Type :=
| SDL_SetRenderDrawColor (r g b a : Z)
| SDL_RenderClear
| SDL_RenderDrawRect (x y w h : Z)
| SDL_RenderPresent.

Definition Video_render (v : Video) : list SDL_render_call :=
  let r := wrap8 (Z.land (Z.shiftr (bgColor v) 24) 0xFF) in
  let g := wrap8 (Z.land (Z.shiftr (bgColor v) 16) 0xFF) in
  let b := wrap8 (Z.land (Z.shiftr (bgColor v) 8) 0xFF) in
  let a := wrap8 (Z.land (bgColor v) 0xFF) in
  [SDL_SetRenderDrawColor r g b a; SDL_RenderClear;
   SDL_SetRenderDrawColor 255 255 255 255; SDL_RenderDrawRect 10 10 200 50;
   SDL_RenderPresent].

(** ** One iteration of [WiiEmulator::run] (lines 350-395)

    The locals [colorCycle] and [toneFreq], the member [running] and the
    function-level statics [audioOn], [spacePressed] and [memTestDone]. *)

Record Loop := mkLoop {
  running : bool;
  colorCycle : Z;
  toneFreq : Z;
  audioOn : bool;
  spacePressed : bool;
  memTestDone : bool
}.

(** The values with which [run] enters its loop (lines 340, 347-348, 374-375,
    388). *)
Definition Loop_start : Loop := mkLoop true 0 440 false false false.

(** [buttons & mask] used as a condition. *)
Definition pressed (buttons mask : Z) : bool := negb (Z.land buttons mask =? 0).

(** Lines 364-381: what the buttons do to the loop's variables.  [toneFreq]
    is an [int]; [toneFreq + 10] and [toneFreq - 10] are taken in [Z]. *)
Definition apply_buttons (buttons : Z) (l : Loop) : Loop :=
  let c0 := colorCycle l in
  let c1 := if pressed buttons 0x00000001 then wrap32 (c0 + 0x01000000) else c0 in
  let c2 := if pressed buttons 0x00000002 then wrap32 (c1 - 0x01000000) else c1 in
  let c3 := if pressed buttons 0x00000004 then wrap32 (c2 + 0x00010000) else c2 in
  let c4 := if pressed buttons 0x00000008 then wrap32 (c3 - 0x00010000) else c3 in
  let t0 := toneFreq l in
  let t1 := if pressed buttons 0x00000010 then Z.min (t0 + 10) 2000 else t0 in
  let t2 := if pressed buttons 0x00000020 then Z.max (t1 - 10) 100 else t1 in
  let '(on, sp) :=
    if pressed buttons 0x00000040 && negb (spacePressed l)
    then (negb (audioOn l), true)
    else if negb (pressed buttons 0x00000040) then (audioOn l, false)
    else (audioOn l, spacePressed l) in
  mkLoop (running l) c4 t2 on sp (memTestDone l).

(** The call [input.update()] of line 354 on the emulator's own [input],
    the object at index 0 of its store, with [polled] the pending events. *)
Definition poll_input (polled : list SDL_Event) (s : Machine) : Machine :=
  mkMachine (memory s) (videos s) (audios s)
            (<[0%nat := Input_update polled (inputs s 0%nat)]> (inputs s)).

(** Lines 353-395 of the loop body.  [video.render()], the frame pacing and
    the FPS log, which follow in the body (lines 397-415), are not part of
    it. *)
Definition WiiEmulator_tick (polled : list SDL_Event) (l : Loop) : M Loop :=
  modify (poll_input polled);;
  let* quit := gets (fun s => Input_shouldQuit (inputs s 0%nat)) in
  if quit then
    ret (mkLoop false (colorCycle l) (toneFreq l) (audioOn l) (spacePressed l)
                (memTestDone l))
  else
    let* buttons := read32 REG_INPUT_STATE in
    let l1 := apply_buttons buttons l in
    write32 REG_VIDEO_BG_COLOR (colorCycle l1);;
    write32 REG_AUDIO_FREQ (wrap32 (if audioOn l1 then toneFreq l1 else 0));;
    if negb (memTestDone l1) then
      write32 0x80000000 0xDEADBEEF;;
      let* testRead := read32 0x80000000 in
      emit (SDL_Log "Memory test - Written: 0xDEADBEEF, Read: 0x%08X" [testRead]);;
      ret (mkLoop (running l1) (colorCycle l1) (toneFreq l1) (audioOn l1)
                  (spacePressed l1) true)
    else ret l1.

(** The loop: one [polled] queue per iteration, for as long as [running]. *)
Fixpoint WiiEmulator_ticks (queues : list (list SDL_Event)) (l : Loop) : M Loop :=
  match queues with
  | [] => ret l
  | polled :: rest =>
      if running l then
        let* l' := WiiEmulator_tick polled l in
        WiiEmulator_ticks rest l'
      else ret l
  end.

(** The ranges that the loop keeps its two numeric variables in. *)
Definition Loop_ok (l : Loop) : Prop :=
  100 <= toneFreq l <= 2000 /\ is_uint32 (colorCycle l).

(** The loop's variables after a run of iterations that read the button
    words [bs], in order. *)
Definition apply_buttons_all (bs : list Z) (l : Loop) : Loop :=
  fold_left (fun l b => apply_buttons b l) bs l.

(** * Properties *)

(** ** Bits *)

Lemma testbit_high n v i : 0 <= n -> 0 <= v < 2 ^ n -> n <= i -> Z.testbit v i = false.
Proof.
  intros Hn Hv Hi. rewrite <- (Z.mod_small v (2 ^ n)) by lia.
  apply Z.mod_pow2_bits_high. lia.
Qed.

Lemma testbit_255 i : 0 <= i -> Z.testbit 255 i = (i <? 8).
Proof. intros Hi. change 255 with (Z.ones 8). apply Z.testbit_ones_nonneg; lia. Qed.

Ltac bit_step :=
  match goal with
  | |- context [Z.testbit (Z.lor _ _) _] => rewrite Z.lor_spec
  | |- context [Z.testbit (Z.land _ _) _] => rewrite Z.land_spec
  | |- context [Z.testbit ?a ?n] => rewrite (Z.testbit_neg_r a n) by lia
  | |- context [Z.testbit (?a mod 2 ^ ?n) ?i] => rewrite (Z.testbit_mod_pow2 a n i) by lia
  | |- context [Z.testbit (Z.shiftl ?a ?n) ?i] => rewrite (Z.shiftl_spec a n i) by lia
  | |- context [Z.testbit (Z.shiftr ?a ?n) ?i] => rewrite (Z.shiftr_spec a n i) by lia
  | |- context [Z.testbit 255 ?i] => rewrite (testbit_255 i) by lia
  | |- context [?a <? ?b] =>
      first [ rewrite (proj2 (Z.ltb_lt a b)) by lia | rewrite (proj2 (Z.ltb_ge a b)) by lia ]
  | |- context [?i - ?k + ?k] => rewrite (Z.sub_add k i)
  | H : 0 <= ?v < 2 ^ ?n |- context [Z.testbit ?v ?i] =>
      rewrite (testbit_high n v i) by (assumption || lia)
  end.

Ltac bits :=
  repeat bit_step;
  repeat rewrite ?andb_true_r, ?andb_false_r, ?orb_false_r, ?orb_false_l,
                 ?andb_true_l, ?andb_false_l, ?orb_true_r, ?orb_true_l;
  try reflexivity.

(** The byte that [write32] stores for the bits [8k+7 .. 8k] of [value]. *)
Lemma stored_byte v k :
  0 <= k -> wrap8 (Z.land (Z.shiftr v k) 0xFF) = (v / 2 ^ k) mod 2 ^ 8.
Proof.
  intros Hk. unfold wrap8. change 0xFF with (Z.ones 8).
  rewrite Z.land_ones, Z.shiftr_div_pow2 by lia.
  apply Z.mod_mod. lia.
Qed.

Lemma stored_byte0 v : wrap8 (Z.land v 0xFF) = v mod 2 ^ 8.
Proof.
  unfold wrap8. change 0xFF with (Z.ones 8).
  rewrite Z.land_ones by lia. apply Z.mod_mod. lia.
Qed.

(** Splitting a word as [write32] does and combining the bytes as [read32]
    does gives the word back. *)
Lemma combine32_split v :
  is_uint32 v ->
  combine32 (wrap8 (Z.land (Z.shiftr v 24) 0xFF)) (wrap8 (Z.land (Z.shiftr v 16) 0xFF))
            (wrap8 (Z.land (Z.shiftr v 8) 0xFF)) (wrap8 (Z.land v 0xFF)) = v.
Proof.
  unfold is_uint32. intros Hv. unfold combine32, shl32, wrap32, wrap8.
  apply Z.bits_inj'; intros i Hi.
  destruct (Z.lt_ge_cases i 8); [bits|].
  destruct (Z.lt_ge_cases i 16); [bits|].
  destruct (Z.lt_ge_cases i 24); [bits|].
  destruct (Z.lt_ge_cases i 32); bits.
Qed.

(** ** The sizes and the offset masks *)

Lemma MEM1_SIZE_eq : MEM1_SIZE = 3 * 2 ^ 23.
Proof. reflexivity. Qed.

Lemma MEM2_SIZE_eq : MEM2_SIZE = 2 ^ 26.
Proof. reflexivity. Qed.

Lemma MEM1_mask_bits i :
  0 <= i -> Z.testbit (wrap32 (MEM1_SIZE - 1)) i = ((i <? 23) || (i =? 24)).
Proof.
  intros Hi. change (wrap32 (MEM1_SIZE - 1)) with (Z.lor (Z.ones 23) (2 ^ 24)).
  rewrite Z.lor_spec, Z.testbit_ones_nonneg, Z.pow2_bits_eqb by lia.
  rewrite (Z.eqb_sym 24 i). reflexivity.
Qed.

(** The MEM1 mask keeps bits 0..22 and bit 24 of the address. *)
Lemma MEM1_offset_spec a :
  MEM1_offset a = a mod 2 ^ 23 + 2 ^ 24 * ((a / 2 ^ 24) mod 2).
Proof.
  unfold MEM1_offset.
  rewrite <- (Z.testbit_spec' a 24) by lia.
  set (b := Z.b2z (Z.testbit a 24)).
  assert (Hb : 0 <= b < 2 ^ 1) by (subst b; destruct (Z.testbit a 24); simpl; lia).
  assert (Hb0 : Z.testbit b 0 = Z.testbit a 24)
    by (subst b; destruct (Z.testbit a 24); reflexivity).
  rewrite (Z.mul_comm (2 ^ 24) b), <- Z.shiftl_mul_pow2 by lia.
  assert (D : Z.land (a mod 2 ^ 23) (Z.shiftl b 24) = 0).
  { apply Z.bits_inj'; intros i Hi. rewrite Z.bits_0.
    destruct (Z.lt_ge_cases i 23); bits. }
  rewrite <- Z.add_lor_land, D, Z.add_0_r.
  apply Z.bits_inj'; intros i Hi.
  rewrite Z.land_spec, Z.lor_spec, MEM1_mask_bits by lia.
  destruct (Z.lt_ge_cases i 23); [bits|].
  destruct (Z.eq_dec i 24) as [->|Hne].
  - bits. change (24 - 24) with 0. rewrite Hb0. reflexivity.
  - destruct (Z.lt_ge_cases i 24); bits.
    all: rewrite (proj2 (Z.eqb_neq i 24)) by lia; bits.
Qed.

(** The MEM2 mask keeps the low 26 bits of the address. *)
Lemma MEM2_offset_spec a : MEM2_offset a = a mod 2 ^ 26.
Proof.
  unfold MEM2_offset. change (wrap32 (MEM2_SIZE - 1)) with (Z.ones 26).
  apply Z.land_ones. lia.
Qed.

(** ** The windows *)

Lemma in_MEM1_window_spec a :
  in_MEM1_window a = true <->
  0x80000000 <= a < 0x81800000 \/ 0xC0000000 <= a < 0xC1800000.
Proof.
  unfold in_MEM1_window.
  change (wrap32 (0x80000000 + MEM1_SIZE)) with 0x81800000.
  change (wrap32 (0xC0000000 + MEM1_SIZE)) with 0xC1800000.
  rewrite orb_true_iff, !andb_true_iff, !Z.leb_le, !Z.ltb_lt. reflexivity.
Qed.

Lemma in_MEM2_window_spec a :
  in_MEM2_window a = true <->
  0x90000000 <= a < 0x94000000 \/ 0xD0000000 <= a < 0xD4000000.
Proof.
  unfold in_MEM2_window.
  change (wrap32 (0x90000000 + MEM2_SIZE)) with 0x94000000.
  change (wrap32 (0xD0000000 + MEM2_SIZE)) with 0xD4000000.
  rewrite orb_true_iff, !andb_true_iff, !Z.leb_le, !Z.ltb_lt. reflexivity.
Qed.

Lemma windows_disjoint a : in_MEM2_window a = true -> in_MEM1_window a = false.
Proof.
  intros H2. apply not_true_is_false. intros H1.
  apply in_MEM1_window_spec in H1. apply in_MEM2_window_spec in H2. lia.
Qed.

Lemma region_of_in_window a r : region_of a = Some r <-> in_window r a = true.
Proof.
  unfold region_of. destruct r; simpl.
  - destruct (in_MEM1_window a); [tauto|].
    destruct (in_MEM2_window a); split; congruence.
  - destruct (in_MEM2_window a) eqn:E2.
    + rewrite (windows_disjoint a E2). tauto.
    + destruct (in_MEM1_window a); split; congruence.
Qed.

Lemma region_of_None a :
  region_of a = None <-> in_MEM1_window a = false /\ in_MEM2_window a = false.
Proof.
  unfold region_of.
  destruct (in_MEM1_window a), (in_MEM2_window a); split; intros; try tauto; try congruence.
  all: destruct H; congruence.
Qed.

(** An address [base + o] with [o] below the size lies in the region's window. *)
Lemma window_address base r o :
  In (base, r) RAM_windows -> 0 <= o < region_size r -> region_of (base + o) = Some r.
Proof.
  intros Hin Ho. apply region_of_in_window.
  simpl in Hin.
  destruct Hin as [E|[E|[E|[E|[]]]]]; inversion E; subst; simpl in *.
  1,2: rewrite MEM1_SIZE_eq in Ho; apply in_MEM1_window_spec; lia.
  1,2: rewrite MEM2_SIZE_eq in Ho; apply in_MEM2_window_spec; lia.
Qed.

Lemma registers_unmapped_RAM :
  region_of REG_VIDEO_BG_COLOR = None /\ region_of REG_INPUT_STATE = None
  /\ region_of REG_AUDIO_FREQ = None.
Proof. repeat split; reflexivity. Qed.

(** ** The offsets *)

Lemma region_offset_range r a :
  0 <= region_offset r a <= region_size r - 1.
Proof.
  destruct r; simpl.
  - rewrite MEM1_offset_spec, MEM1_SIZE_eq.
    assert (0 <= a mod 2 ^ 23 < 2 ^ 23) by (apply Z.mod_pos_bound; lia).
    assert (0 <= (a / 2 ^ 24) mod 2 < 2) by (apply Z.mod_pos_bound; lia).
    lia.
  - rewrite MEM2_offset_spec, MEM2_SIZE_eq.
    assert (0 <= a mod 2 ^ 26 < 2 ^ 26) by (apply Z.mod_pos_bound; lia).
    lia.
Qed.

(** The offset of [base + o] does not depend on which window [base] is. *)
Lemma region_offset_base base r o :
  In (base, r) RAM_windows -> region_offset r (base + o) = region_offset r o.
Proof.
  intros Hin. simpl in Hin.
  destruct Hin as [E|[E|[E|[E|[]]]]]; inversion E; subst; simpl.
  1,2: rewrite !MEM1_offset_spec.
  3,4: rewrite !MEM2_offset_spec.
  - change 0x80000000 with (2 ^ 7 * 2 ^ 24). 
    replace (2 ^ 7 * 2 ^ 24 + o) with (o + 2 ^ 7 * 2 ^ 24) by lia.
    rewrite Z.div_add by lia.
    replace (o + 2 ^ 7 * 2 ^ 24) with (o + 2 ^ 8 * 2 ^ 23) by lia.
    rewrite Z.mod_add by lia.
    replace (o / 2 ^ 24 + 2 ^ 7) with (o / 2 ^ 24 + 2 ^ 6 * 2) by lia.
    rewrite Z.mod_add by lia. reflexivity.
  - change 0xC0000000 with (192 * 2 ^ 24).
    replace (192 * 2 ^ 24 + o) with (o + 192 * 2 ^ 24) by lia.
    rewrite Z.div_add by lia.
    replace (o + 192 * 2 ^ 24) with (o + 384 * 2 ^ 23) by lia.
    rewrite Z.mod_add by lia.
    replace (o / 2 ^ 24 + 192) with (o / 2 ^ 24 + 96 * 2) by lia.
    rewrite Z.mod_add by lia. reflexivity.
  - change 0x90000000 with (36 * 2 ^ 26).
    rewrite Z.add_comm, Z.mod_add by lia. reflexivity.
  - change 0xD0000000 with (52 * 2 ^ 26).
    rewrite Z.add_comm, Z.mod_add by lia. reflexivity.
Qed.

(** An offset that is a multiple of 4 leaves room for the whole word. *)
Lemma aligned_offset_in_bounds r a :
  a mod 4 = 0 -> region_offset r a + 3 < region_size r.
Proof.
  intros Ha. destruct r; simpl.
  - rewrite MEM1_offset_spec, MEM1_SIZE_eq.
    assert (0 <= (a / 2 ^ 24) mod 2 < 2) by (apply Z.mod_pos_bound; lia).
    assert ((a mod 2 ^ 23) mod 4 = 0).
    { change (2 ^ 23) with (4 * 2 ^ 21). rewrite Z.rem_mul_r by lia.
      rewrite Ha. rewrite Z.add_0_l, Z.mul_comm. apply Z.mod_mul. lia. }
    assert (0 <= a mod 2 ^ 23 < 2 ^ 23) by (apply Z.mod_pos_bound; lia).
    change (2 ^ 23) with 8388608 in *. change (2 ^ 24) with 16777216 in *.
    generalize dependent (a mod 8388608). intros x Hx Hx'.
    apply Z.mod_divide in Hx; [|lia]. destruct Hx as [q ->]. lia.
  - rewrite MEM2_offset_spec, MEM2_SIZE_eq.
    assert ((a mod 2 ^ 26) mod 4 = 0).
    { change (2 ^ 26) with (4 * 2 ^ 24). rewrite Z.rem_mul_r by lia.
      rewrite Ha. rewrite Z.add_0_l, Z.mul_comm. apply Z.mod_mul. lia. }
    assert (0 <= a mod 2 ^ 26 < 2 ^ 26) by (apply Z.mod_pos_bound; lia).
    change (2 ^ 26) with 67108864 in *.
    generalize dependent (a mod 67108864). intros x Hx Hx'.
    apply Z.mod_divide in Hx; [|lia]. destruct Hx as [q ->]. lia.
Qed.

(** ** Byte vectors *)

Lemma wrap32_small x : 0 <= x < 2 ^ 32 -> wrap32 x = x.
Proof. intros Hx. apply Z.mod_small. exact Hx. Qed.

Lemma byte_at_insert (v : gmap Z Z) i j x :
  byte_at (<[i := x]> v) j = if decide (i = j) then x else byte_at v j.
Proof.
  unfold byte_at. rewrite lookup_insert. destruct (decide (i = j)); reflexivity.
Qed.

(** What [store32] leaves at every index. *)
Lemma byte_at_store32 (m : gmap Z Z) off v i :
  0 <= off -> off + 3 < 2 ^ 32 ->
  byte_at (store32 m off v) i =
    if decide (i = off) then wrap8 (Z.land (Z.shiftr v 24) 0xFF)
    else if decide (i = off + 1) then wrap8 (Z.land (Z.shiftr v 16) 0xFF)
    else if decide (i = off + 2) then wrap8 (Z.land (Z.shiftr v 8) 0xFF)
    else if decide (i = off + 3) then wrap8 (Z.land v 0xFF)
    else byte_at m i.
Proof.
  intros H0 H3. unfold store32.
  rewrite !wrap32_small by lia. rewrite !byte_at_insert.
  repeat destruct (decide _); try reflexivity; lia.
Qed.

Lemma lookup_store32_other (m : gmap Z Z) off v i :
  0 <= off -> off + 3 < 2 ^ 32 -> i < off \/ off + 3 < i ->
  store32 m off v !! i = m !! i.
Proof.
  intros H0 H3 Hi. unfold store32.
  rewrite !wrap32_small by lia.
  rewrite !lookup_insert_ne by lia. reflexivity.
Qed.

Lemma load32_store32 (m : gmap Z Z) off v :
  0 <= off -> off + 3 < 2 ^ 32 -> is_uint32 v ->
  load32 (store32 m off v) off = v.
Proof.
  intros H0 H3 Hv. unfold load32.
  rewrite !wrap32_small by lia.
  rewrite !byte_at_store32 by lia.
  repeat (destruct (decide _); try lia).
  apply combine32_split. exact Hv.
Qed.

(** [load32] looks at the four bytes from [off] only. *)
Lemma load32_ext (m m' : gmap Z Z) off :
  0 <= off -> off + 3 < 2 ^ 32 ->
  (forall i, off <= i <= off + 3 -> byte_at m' i = byte_at m i) ->
  load32 m' off = load32 m off.
Proof.
  intros H0 H3 E. unfold load32.
  rewrite !wrap32_small by lia.
  rewrite !E by lia. reflexivity.
Qed.

(** ** [read32] and [write32], branch by branch *)

Lemma offset_plus3_wrap r a : wrap32 (region_offset r a + 3) = region_offset r a + 3.
Proof.
  apply wrap32_small.
  pose proof (region_offset_range r a) as H.
  destruct r; simpl in *; [rewrite MEM1_SIZE_eq in H|rewrite MEM2_SIZE_eq in H]; lia.
Qed.

Lemma offset_uint32 r a : 0 <= region_offset r a /\ region_offset r a + 3 < 2 ^ 32.
Proof.
  pose proof (region_offset_range r a) as H.
  destruct r; simpl in *; [rewrite MEM1_SIZE_eq in H|rewrite MEM2_SIZE_eq in H]; lia.
Qed.

(** Under the guard of lines 52, 66, 95 and 108 the four indices lie inside
    the vector, so [operator[]] is never used out of range. *)
Lemma guarded_index_in_vector r a k :
  region_offset r a + 3 < region_size r -> 0 <= k <= 3 ->
  0 <= wrap32 (region_offset r a + k) < region_size r.
Proof.
  intros Hb Hk. destruct (offset_uint32 r a) as [H0 H3].
  rewrite wrap32_small by lia. lia.
Qed.

Lemma read32_in_bounds a r s :
  region_of a = Some r -> region_offset r a + 3 < region_size r ->
  read32 a s = (load32 (backing r (memory s)) (region_offset r a), s, []).
Proof.
  intros Hr Hb. pose proof (offset_plus3_wrap r a) as W.
  apply Z.ltb_lt in Hb. rewrite <- W in Hb.
  unfold region_of in Hr. unfold read32.
  destruct (in_MEM1_window a).
  - inversion Hr; subst r. simpl in Hb. rewrite Hb. reflexivity.
  - destruct (in_MEM2_window a); [|discriminate].
    inversion Hr; subst r. simpl in Hb. rewrite Hb. reflexivity.
Qed.

Lemma read32_out_of_range a r s :
  region_of a = Some r -> region_size r <= region_offset r a + 3 ->
  read32 a s = (0, s, [SDL_Log (read_range_fmt r) [a]]).
Proof.
  intros Hr Hb. pose proof (offset_plus3_wrap r a) as W.
  apply Z.ltb_ge in Hb. rewrite <- W in Hb.
  unfold region_of in Hr. unfold read32.
  destruct (in_MEM1_window a).
  - inversion Hr; subst r. simpl in Hb. rewrite Hb. reflexivity.
  - destruct (in_MEM2_window a); [|discriminate].
    inversion Hr; subst r. simpl in Hb. rewrite Hb. reflexivity.
Qed.

Lemma write32_in_bounds a v r s :
  region_of a = Some r -> region_offset r a + 3 < region_size r ->
  write32 a v s =
    (tt,
     set_memory (fun m => with_backing r (store32 (backing r m) (region_offset r a) v) m) s,
     []).
Proof.
  intros Hr Hb. pose proof (offset_plus3_wrap r a) as W.
  apply Z.ltb_lt in Hb. rewrite <- W in Hb.
  unfold region_of in Hr. unfold write32.
  destruct (in_MEM1_window a).
  - inversion Hr; subst r. simpl in Hb. rewrite Hb. reflexivity.
  - destruct (in_MEM2_window a); [|discriminate].
    inversion Hr; subst r. simpl in Hb. rewrite Hb. reflexivity.
Qed.

Lemma write32_out_of_range a v r s :
  region_of a = Some r -> region_size r <= region_offset r a + 3 ->
  write32 a v s = (tt, s, [SDL_Log (write_range_fmt r) [a]]).
Proof.
  intros Hr Hb. pose proof (offset_plus3_wrap r a) as W.
  apply Z.ltb_ge in Hb. rewrite <- W in Hb.
  unfold region_of in Hr. unfold write32.
  destruct (in_MEM1_window a).
  - inversion Hr; subst r. simpl in Hb. rewrite Hb. reflexivity.
  - destruct (in_MEM2_window a); [|discriminate].
    inversion Hr; subst r. simpl in Hb. rewrite Hb. reflexivity.
Qed.

(** Outside the RAM windows only the register comparisons remain. *)
Lemma read32_IO a s :
  region_of a = None ->
  read32 a s =
    if a =? REG_VIDEO_BG_COLOR then (videoBgColor (memory s), s, [])
    else if a =? REG_INPUT_STATE then
      match input (memory s) with
      | Some p => (buttonState (inputs s p), s, [call_getButtonState p])
      | None => (0, s, [])
      end
    else if a =? REG_AUDIO_FREQ then (audioFreqValue (memory s), s, [])
    else (0, s, [SDL_Log "Unhandled read from address 0x%08X" [a]]).
Proof.
  intros Hr. apply region_of_None in Hr. destruct Hr as [H1 H2].
  unfold read32. rewrite H1, H2.
  destruct (a =? REG_VIDEO_BG_COLOR); [reflexivity|].
  destruct (a =? REG_INPUT_STATE).
  - unfold bind, gets. simpl. destruct (input (memory s)); reflexivity.
  - destruct (a =? REG_AUDIO_FREQ); reflexivity.
Qed.

Lemma write32_IO a v s :
  region_of a = None ->
  write32 a v s =
    if a =? REG_VIDEO_BG_COLOR then
      match video (memory s) with
      | Some p =>
          (tt,
           mkMachine (with_videoBgColor v (memory s)) (<[p := mkVideo v]> (videos s))
                     (audios s) (inputs s),
           [call_setBackgroundColor p v])
      | None => (tt, set_memory (with_videoBgColor v) s, [])
      end
    else if a =? REG_INPUT_STATE then
      (tt, s, [SDL_Log "Ignoring write to input state register" []])
    else if a =? REG_AUDIO_FREQ then
      match audio (memory s) with
      | Some p =>
          (tt,
           mkMachine (with_audioFreqValue v (memory s)) (videos s)
                     (<[p := mkAudio v]> (audios s)) (inputs s),
           [call_setToneFrequency p v])
      | None => (tt, set_memory (with_audioFreqValue v) s, [])
      end
    else (tt, s, [SDL_Log "Unhandled write to address 0x%08X: value 0x%08X" [a; v]]).
Proof.
  intros Hr. apply region_of_None in Hr. destruct Hr as [H1 H2].
  unfold write32. rewrite H1, H2.
  destruct (a =? REG_VIDEO_BG_COLOR).
  - unfold bind, gets, modify. simpl. destruct (video (memory s)); reflexivity.
  - destruct (a =? REG_INPUT_STATE); [reflexivity|].
    destruct (a =? REG_AUDIO_FREQ); [|reflexivity].
    unfold bind, gets, modify. simpl. destruct (audio (memory s)); reflexivity.
Qed.

Lemma backing_with_backing r x m : backing r (with_backing r x m) = x.
Proof. destruct r; reflexivity. Qed.

Lemma primary_base_window r : In (primary_base r, r) RAM_windows.
Proof. destruct r; simpl; auto. Qed.

Lemma alias_base_window r : In (alias_base r, r) RAM_windows.
Proof. destruct r; simpl; auto 6. Qed.

Lemma window_base_aligned base r : In (base, r) RAM_windows -> base mod 4 = 0.
Proof.
  simpl. intros [E|[E|[E|[E|[]]]]]; inversion E; reflexivity.
Qed.

Lemma window_base_offset base r : In (base, r) RAM_windows -> region_offset r base = 0.
Proof.
  simpl. intros [E|[E|[E|[E|[]]]]]; inversion E; reflexivity.
Qed.

(** The last address of a window: its word does not fit. *)
Lemma window_tail_out_of_range base r :
  In (base, r) RAM_windows ->
  region_of (base + region_size r - 1) = Some r
  /\ region_size r <= region_offset r (base + region_size r - 1) + 3.
Proof.
  simpl. intros [E|[E|[E|[E|[]]]]]; inversion E; split; (reflexivity || discriminate).
Qed.

(** ** Round trip *)

(** C1: for every 32-bit value [v] and every offset [o] that is a multiple
    of 4 and below the size of a RAM region, writing [v] with [write32] at
    the address [base + o] of either window of the region and then reading
    the same address with [read32] returns [v]. *)
Theorem write32_read32_roundtrip s base r o v :
  In (base, r) RAM_windows -> 0 <= o < region_size r -> o mod 4 = 0 ->
  is_uint32 v ->
  result ((write32 (base + o) v;; read32 (base + o)) s) = v.
Proof.
  intros Hin Ho Hal Hv.
  pose proof (window_address base r o Hin Ho) as Hr.
  assert (Hb : region_offset r (base + o) + 3 < region_size r).
  { apply aligned_offset_in_bounds.
    rewrite Z.add_mod, (window_base_aligned base r Hin), Hal by lia. reflexivity. }
  unfold bind. rewrite (write32_in_bounds _ _ r) by assumption.
  rewrite (read32_in_bounds _ r) by assumption.
  unfold result, set_memory. simpl. rewrite backing_with_backing.
  apply load32_store32; [apply offset_uint32 .. | exact Hv].
Qed.

Lemma write32_read32_roundtrip_witness :
  In (0xC0000000, MEM1) RAM_windows /\ 0 <= 0x00900004 < region_size MEM1
  /\ 0x00900004 mod 4 = 0 /\ is_uint32 0xDEADBEEF
  /\ result ((write32 (0xC0000000 + 0x00900004) 0xDEADBEEF;;
              read32 (0xC0000000 + 0x00900004)) machine0) = 0xDEADBEEF.
Proof.
  assert (H1 : In (0xC0000000, MEM1) RAM_windows) by (simpl; auto).
  assert (H2 : 0 <= 0x00900004 < region_size MEM1) by (vm_compute; split; congruence).
  assert (H3 : 0x00900004 mod 4 = 0) by reflexivity.
  assert (H4 : is_uint32 0xDEADBEEF) by (vm_compute; split; congruence).
  exact (conj H1 (conj H2 (conj H3 (conj H4
    (write32_read32_roundtrip machine0 0xC0000000 MEM1 0x00900004 0xDEADBEEF
       H1 H2 H3 H4))))).
Defined.

(** ** Aliasing *)

Lemma read32_same_offset a b r s :
  region_of a = Some r -> region_of b = Some r ->
  region_offset r a = region_offset r b ->
  result (read32 a s) = result (read32 b s).
Proof.
  intros Ha Hb E.
  destruct (Z.lt_ge_cases (region_offset r a + 3) (region_size r)) as [L|G].
  - rewrite (read32_in_bounds a r), (read32_in_bounds b r) by (assumption || lia).
    unfold result. simpl. rewrite E. reflexivity.
  - rewrite (read32_out_of_range a r), (read32_out_of_range b r) by (assumption || lia).
    reflexivity.
Qed.

(** A word written through one window is read back through the other. *)
Lemma write32_read32_across_windows s r o v :
  0 <= o < region_size r -> o mod 4 = 0 -> is_uint32 v ->
  result ((write32 (primary_base r + o) v;; read32 (alias_base r + o)) s) = v
  /\ result ((write32 (alias_base r + o) v;; read32 (primary_base r + o)) s) = v.
Proof.
  intros Ho Hal Hv.
  pose proof (window_address _ r o (primary_base_window r) Ho) as Hp.
  pose proof (window_address _ r o (alias_base_window r) Ho) as Ha.
  pose proof (region_offset_base _ r o (primary_base_window r)) as Ep.
  pose proof (region_offset_base _ r o (alias_base_window r)) as Ea.
  pose proof (aligned_offset_in_bounds r o Hal) as Hb.
  destruct (offset_uint32 r o) as [H0 H3].
  unfold bind. split.
  - rewrite (write32_in_bounds _ _ r) by (assumption || (rewrite Ep; assumption)).
    rewrite (read32_in_bounds _ r) by (assumption || (rewrite Ea; assumption)).
    unfold result, set_memory. simpl. rewrite backing_with_backing, Ep, Ea.
    apply load32_store32; assumption.
  - rewrite (write32_in_bounds _ _ r) by (assumption || (rewrite Ea; assumption)).
    rewrite (read32_in_bounds _ r) by (assumption || (rewrite Ep; assumption)).
    unfold result, set_memory. simpl. rewrite backing_with_backing, Ep, Ea.
    apply load32_store32; assumption.
Qed.

(** C2: for every offset [o] below the size of a region, the two windows of
    the region send [base + o] to the same offset of the same byte vector,
    and [read32] returns the same value through both, in the state reached
    by any sequence of writes (through these windows or anywhere else). *)
Theorem alias_windows_read_equal ws s r o :
  0 <= o < region_size r ->
  let s' := final (write_all ws s) in
  region_of (primary_base r + o) = Some r
  /\ region_of (alias_base r + o) = Some r
  /\ region_offset r (primary_base r + o) = region_offset r (alias_base r + o)
  /\ result (read32 (primary_base r + o) s') = result (read32 (alias_base r + o) s').
Proof.
  intros Ho s'.
  pose proof (window_address _ r o (primary_base_window r) Ho) as Hp.
  pose proof (window_address _ r o (alias_base_window r) Ho) as Ha.
  assert (E : region_offset r (primary_base r + o) = region_offset r (alias_base r + o)).
  { rewrite (region_offset_base _ r o (primary_base_window r)).
    rewrite (region_offset_base _ r o (alias_base_window r)). reflexivity. }
  repeat split; try assumption.
  apply (read32_same_offset _ _ r); assumption.
Qed.

Lemma alias_windows_read_equal_witness :
  0 <= 0x00ABCDE0 < region_size MEM1
  /\ result (read32 (0x80000000 + 0x00ABCDE0)
               (final (write_all [(0xC0ABCDE0, 0x11223344); (0x802BCDE0, 0x55667788)]
                                 machine0)))
     = result (read32 (0xC0000000 + 0x00ABCDE0)
               (final (write_all [(0xC0ABCDE0, 0x11223344); (0x802BCDE0, 0x55667788)]
                                 machine0))).
Proof.
  assert (H : 0 <= 0x00ABCDE0 < region_size MEM1) by (vm_compute; split; congruence).
  exact (conj H
    (proj2 (proj2 (proj2
       (alias_windows_read_equal
          [(0xC0ABCDE0, 0x11223344); (0x802BCDE0, 0x55667788)] machine0 MEM1
          0x00ABCDE0 H))))).
Defined.

(** ** Byte order *)

(** C3: an in-bounds [write32] leaves bits 31-24 of the value at the
    offset, bits 23-16 at offset + 1, bits 15-8 at offset + 2 and bits 7-0
    at offset + 3; writing 0xDEADBEEF at the base of any window leaves the
    bytes DE AD BE EF at offsets 0..3 of the region. *)
Theorem write32_big_endian_layout :
  (forall s a v r,
     region_of a = Some r -> region_offset r a + 3 < region_size r ->
     let m' := backing r (memory (final (write32 a v s))) in
     let off := region_offset r a in
     byte_at m' off = (v / 2 ^ 24) mod 2 ^ 8
     /\ byte_at m' (off + 1) = (v / 2 ^ 16) mod 2 ^ 8
     /\ byte_at m' (off + 2) = (v / 2 ^ 8) mod 2 ^ 8
     /\ byte_at m' (off + 3) = v mod 2 ^ 8)
  /\ (forall s base r,
        In (base, r) RAM_windows ->
        let m' := backing r (memory (final (write32 base 0xDEADBEEF s))) in
        map (byte_at m') [0; 1; 2; 3] = [0xDE; 0xAD; 0xBE; 0xEF]).
Proof.
  assert (G : forall s a v r,
     region_of a = Some r -> region_offset r a + 3 < region_size r ->
     let m' := backing r (memory (final (write32 a v s))) in
     let off := region_offset r a in
     byte_at m' off = (v / 2 ^ 24) mod 2 ^ 8
     /\ byte_at m' (off + 1) = (v / 2 ^ 16) mod 2 ^ 8
     /\ byte_at m' (off + 2) = (v / 2 ^ 8) mod 2 ^ 8
     /\ byte_at m' (off + 3) = v mod 2 ^ 8).
  { intros s a v r Hr Hb m' off. subst m' off.
    rewrite (write32_in_bounds a v r) by assumption.
    unfold final, set_memory. simpl. rewrite backing_with_backing.
    destruct (offset_uint32 r a) as [H0 H3].
    rewrite !byte_at_store32 by assumption.
    repeat (destruct (decide _); try lia).
    rewrite !stored_byte by lia. rewrite stored_byte0. auto. }
  split; [exact G|].
  intros s base r Hin m'.
  pose proof (window_address base r 0 Hin) as Hr.
  rewrite Z.add_0_r in Hr.
  assert (Hsz : 0 <= 0 < region_size r) by (destruct r; vm_compute; split; congruence).
  specialize (Hr Hsz).
  pose proof (window_base_offset base r Hin) as Hoff.
  assert (Hb : region_offset r base + 3 < region_size r)
    by (rewrite Hoff; destruct r; reflexivity).
  destruct (G s base 0xDEADBEEF r Hr Hb) as (B0 & B1 & B2 & B3).
  rewrite Hoff in B0, B1, B2, B3.
  change (0 + 1) with 1 in B1. change (0 + 2) with 2 in B2. change (0 + 3) with 3 in B3.
  subst m'. cbn [map]. rewrite B0, B1, B2, B3. reflexivity.
Qed.

Lemma write32_big_endian_layout_witness :
  region_of 0x90000010 = Some MEM2
  /\ region_offset MEM2 0x90000010 + 3 < region_size MEM2
  /\ byte_at (mem2 (memory (final (write32 0x90000010 0x01020304 machine0)))) 0x10 = 1
  /\ In (0x80000000, MEM1) RAM_windows
  /\ map (byte_at (mem1 (memory (final (write32 0x80000000 0xDEADBEEF machine0)))))
         [0; 1; 2; 3] = [0xDE; 0xAD; 0xBE; 0xEF].
Proof.
  assert (H1 : region_of 0x90000010 = Some MEM2) by reflexivity.
  assert (H2 : region_offset MEM2 0x90000010 + 3 < region_size MEM2) by reflexivity.
  assert (H3 : In (0x80000000, MEM1) RAM_windows) by (simpl; auto).
  exact (conj H1 (conj H2 (conj
    (proj1 (proj1 write32_big_endian_layout machine0 0x90000010 0x01020304 MEM2 H1 H2))
    (conj H3 (proj2 write32_big_endian_layout machine0 0x80000000 MEM1 H3))))).
Defined.

(** ** Accesses that are refused *)

(** C4: when the address lies in a RAM window and its masked offset plus 3
    reaches the region's size, [read32] returns 0 and changes nothing, and
    [write32] changes nothing (no RAM byte, no register, no peripheral) and
    calls no peripheral; this is the case at the last address of every
    window, where a write followed by a read returns 0 and leaves the
    machine as it was. *)
Theorem out_of_range_access :
  (forall s a v r,
     region_of a = Some r -> region_size r <= region_offset r a + 3 ->
     result (read32 a s) = 0
     /\ final (read32 a s) = s
     /\ final (write32 a v s) = s
     /\ peripheral_calls (events (write32 a v s)) = [])
  /\ (forall s base r v,
        In (base, r) RAM_windows ->
        let a := base + region_size r - 1 in
        let run := (write32 a v;; read32 a) s in
        result run = 0 /\ final run = s /\ peripheral_calls (events run) = []).
Proof.
  split.
  - intros s a v r Hr Hb.
    rewrite (read32_out_of_range a r), (write32_out_of_range a v r) by assumption.
    repeat split.
  - intros s base r v Hin a run. subst run a.
    destruct (window_tail_out_of_range base r Hin) as [Hr Hb].
    unfold bind.
    rewrite (write32_out_of_range _ v r) by assumption.
    rewrite (read32_out_of_range _ r) by assumption.
    repeat split.
Qed.

Lemma out_of_range_access_witness :
  region_of 0x817FFFFD = Some MEM1
  /\ region_size MEM1 <= region_offset MEM1 0x817FFFFD + 3
  /\ result (read32 0x817FFFFD machine0) = 0
  /\ In (0x90000000, MEM2) RAM_windows
  /\ result ((write32 (0x90000000 + region_size MEM2 - 1) 0xFFFFFFFF;;
              read32 (0x90000000 + region_size MEM2 - 1)) machine0) = 0.
Proof.
  assert (H1 : region_of 0x817FFFFD = Some MEM1) by reflexivity.
  assert (H2 : region_size MEM1 <= region_offset MEM1 0x817FFFFD + 3)
    by (vm_compute; congruence).
  assert (H3 : In (0x90000000, MEM2) RAM_windows) by (simpl; auto).
  exact (conj H1 (conj H2 (conj
    (proj1 (proj1 out_of_range_access machine0 0x817FFFFD 0 MEM1 H1 H2))
    (conj H3
       (proj1 (proj2 out_of_range_access machine0 0x90000000 MEM2 0xFFFFFFFF H3)))))).
Defined.

(** C5: a [write32] to the input-state register 0x0D000004 changes nothing
    in the machine and calls no peripheral; a [read32] of the register
    afterwards returns the button state that the bound input peripheral
    holds at that time, whatever it has become, or 0 when none is bound. *)
Theorem input_state_register_protected s v :
  let w := write32 REG_INPUT_STATE v s in
  REG_INPUT_STATE = 0x0D000004
  /\ final w = s
  /\ peripheral_calls (events w) = []
  /\ forall ins : ptr -> Input,
       result (read32 REG_INPUT_STATE
                 (mkMachine (memory (final w)) (videos (final w)) (audios (final w)) ins))
       = match input (memory s) with
         | Some p => buttonState (ins p)
         | None => 0
         end.
Proof.
  intros w. subst w.
  rewrite write32_IO by reflexivity.
  change (REG_INPUT_STATE =? REG_VIDEO_BG_COLOR) with false.
  change (REG_INPUT_STATE =? REG_INPUT_STATE) with true.
  cbv iota. repeat split.
  intros ins. rewrite read32_IO by reflexivity.
  change (REG_INPUT_STATE =? REG_VIDEO_BG_COLOR) with false.
  change (REG_INPUT_STATE =? REG_INPUT_STATE) with true.
  cbv iota. unfold final. simpl.
  destruct (input (memory s)); reflexivity.
Qed.

(** C6: a [write32] of [v] to the background-colour register 0x0D000000
    stores [v] in the register; with a video peripheral bound it makes
    exactly one call, [setBackgroundColor] with [v], on that peripheral, and
    without one it makes no call; either way a [read32] of the register
    afterwards returns [v]. *)
Theorem background_color_register_write s v :
  let w := write32 REG_VIDEO_BG_COLOR v s in
  REG_VIDEO_BG_COLOR = 0x0D000000
  /\ videoBgColor (memory (final w)) = v
  /\ events w = match video (memory s) with
                | Some p => [call_setBackgroundColor p v]
                | None => []
                end
  /\ match video (memory s) with
     | Some p => bgColor (videos (final w) p) = v
     | None => videos (final w) = videos s
     end
  /\ result (read32 REG_VIDEO_BG_COLOR (final w)) = v.
Proof.
  intros w. subst w.
  rewrite write32_IO by reflexivity.
  change (REG_VIDEO_BG_COLOR =? REG_VIDEO_BG_COLOR) with true. cbv iota.
  destruct (video (memory s)) as [p|]; unfold final; simpl.
  - rewrite fn_lookup_insert. repeat split.
  - repeat split.
Qed.

(** C7: at an address that lies in no RAM window and is none of the three
    register addresses, [read32] returns 0, reporting the address, and
    [write32] only reports the access: neither changes the machine nor
    calls a peripheral. *)
Theorem unmapped_access s a v :
  region_of a = None ->
  a <> REG_VIDEO_BG_COLOR -> a <> REG_INPUT_STATE -> a <> REG_AUDIO_FREQ ->
  read32 a s = (0, s, [SDL_Log "Unhandled read from address 0x%08X" [a]])
  /\ write32 a v s
     = (tt, s, [SDL_Log "Unhandled write to address 0x%08X: value 0x%08X" [a; v]])
  /\ peripheral_calls (events (read32 a s)) = []
  /\ peripheral_calls (events (write32 a v s)) = [].
Proof.
  intros Hr Hv Hi Ha.
  rewrite read32_IO, write32_IO by assumption.
  apply Z.eqb_neq in Hv, Hi, Ha. rewrite Hv, Hi, Ha.
  repeat split.
Qed.

Lemma unmapped_access_witness :
  region_of 0 = None
  /\ 0 <> REG_VIDEO_BG_COLOR /\ 0 <> REG_INPUT_STATE /\ 0 <> REG_AUDIO_FREQ
  /\ read32 0 machine0 = (0, machine0, [SDL_Log "Unhandled read from address 0x%08X" [0]]).
Proof.
  assert (H1 : region_of 0 = None) by reflexivity.
  assert (H2 : 0 <> REG_VIDEO_BG_COLOR) by discriminate.
  assert (H3 : 0 <> REG_INPUT_STATE) by discriminate.
  assert (H4 : 0 <> REG_AUDIO_FREQ) by discriminate.
  exact (conj H1 (conj H2 (conj H3 (conj H4
    (proj1 (unmapped_access machine0 0 0 H1 H2 H3 H4)))))).
Defined.

(** ** Reads have no effect *)

(** C9: [read32] never changes the machine (RAM, registers, bindings and
    peripherals alike), and the calls it makes into peripherals are exactly
    one [getButtonState] on the bound input peripheral when the address is
    0x0D000004 and one is bound, and none otherwise; its other events are
    [SDL_Log] diagnostics. *)
Theorem read32_frame s a :
  final (read32 a s) = s
  /\ peripheral_calls (events (read32 a s))
     = if a =? 0x0D000004 then
         match input (memory s) with
         | Some p => [call_getButtonState p]
         | None => []
         end
       else [].
Proof.
  destruct (region_of a) as [r|] eqn:Hr.
  - assert (Hne : (a =? 0x0D000004) = false).
    { apply Z.eqb_neq. intros ->. discriminate Hr. }
    rewrite Hne.
    destruct (Z.lt_ge_cases (region_offset r a + 3) (region_size r)) as [L|G].
    + rewrite (read32_in_bounds a r) by assumption. split; reflexivity.
    + rewrite (read32_out_of_range a r) by assumption. split; reflexivity.
  - rewrite read32_IO by assumption.
    change REG_INPUT_STATE with 0x0D000004.
    destruct (a =? REG_VIDEO_BG_COLOR) eqn:Ev.
    + apply Z.eqb_eq in Ev. subst a. split; reflexivity.
    + destruct (a =? 0x0D000004).
      * destruct (input (memory s)); split; reflexivity.
      * destruct (a =? REG_AUDIO_FREQ); split; reflexivity.
Qed.

(** ** The region sizes *)

Lemma MEM1_SIZE_not_pow2 : ~ is_pow2 MEM1_SIZE.
Proof.
  intros (k & Hk & E). rewrite MEM1_SIZE_eq in E.
  destruct (Z.le_gt_cases k 24) as [L|G].
  - assert (2 ^ k <= 2 ^ 24) by (apply Z.pow_le_mono_r; lia). lia.
  - assert (2 ^ 25 <= 2 ^ k) by (apply Z.pow_le_mono_r; lia). lia.
Qed.

Lemma MEM2_SIZE_pow2 : is_pow2 MEM2_SIZE.
Proof. exists 26. split; [lia | reflexivity]. Qed.

(** C8, as stated, fails: the size of MEM1 is not a power of two. *)
Lemma region_sizes_pow2_counterexample :
  ~ (is_pow2 MEM1_SIZE /\ is_pow2 MEM2_SIZE).
Proof. intros [H1 _]. exact (MEM1_SIZE_not_pow2 H1). Qed.

(** C8, amended: the size of MEM2, 64 MiB, is the power of two [2^26], and
    the mask [MEM2_SIZE - 1] selects the low 26 bits of the address; the
    size of MEM1, 24 MiB, is [3 * 2^23] and not a power of two. *)
Theorem region_sizes :
  MEM2_SIZE = 64 * 1024 * 1024
  /\ is_pow2 MEM2_SIZE
  /\ wrap32 (MEM2_SIZE - 1) = Z.ones 26
  /\ (forall a, MEM2_offset a = a mod MEM2_SIZE)
  /\ MEM1_SIZE = 24 * 1024 * 1024
  /\ MEM1_SIZE = 3 * 2 ^ 23
  /\ ~ is_pow2 MEM1_SIZE.
Proof.
  split; [reflexivity|]. split; [exact MEM2_SIZE_pow2|].
  split; [reflexivity|]. split; [exact MEM2_offset_spec|].
  split; [reflexivity|]. split; [reflexivity|]. exact MEM1_SIZE_not_pow2.
Qed.

(** ** The gap of the MEM1 mask *)

Lemma MEM1_offset_upper_half a :
  0x80800000 <= a < 0x81000000 \/ 0xC0800000 <= a < 0xC1000000 ->
  region_of a = Some MEM1
  /\ region_of (a - 0x00800000) = Some MEM1
  /\ MEM1_offset a = MEM1_offset (a - 0x00800000).
Proof.
  intros Ha. split; [|split].
  - apply region_of_in_window. simpl. apply in_MEM1_window_spec. lia.
  - apply region_of_in_window. simpl. apply in_MEM1_window_spec. lia.
  - rewrite !MEM1_offset_spec.
    change (2 ^ 23) with 8388608. change (2 ^ 24) with 16777216.
    change 0x00800000 with 8388608.
    replace a with (a - 8388608 + 1 * 8388608) at 1 by lia.
    rewrite Z.mod_add by lia.
    f_equal. f_equal.
    Z.div_mod_to_equations. lia.
Qed.

(** The offsets that [read32] and [write32] can reach in MEM1. *)
Lemma MEM1_offset_reach a i :
  MEM1_offset a <= i <= MEM1_offset a + 3 -> 0x00800003 <= i < 0x01000000 -> False.
Proof.
  rewrite MEM1_offset_spec.
  assert (0 <= a mod 2 ^ 23 < 2 ^ 23) by (apply Z.mod_pos_bound; lia).
  assert (0 <= (a / 2 ^ 24) mod 2 < 2) by (apply Z.mod_pos_bound; lia).
  lia.
Qed.

Lemma write32_mem1_gap s a v i :
  0x00800003 <= i < 0x01000000 ->
  mem1 (memory (final (write32 a v s))) !! i = mem1 (memory s) !! i.
Proof.
  intros Hi. destruct (region_of a) as [r|] eqn:Hr.
  - destruct (Z.lt_ge_cases (region_offset r a + 3) (region_size r)) as [L|G].
    + rewrite (write32_in_bounds a v r) by assumption.
      destruct r; unfold final; simpl; [|reflexivity].
      destruct (offset_uint32 MEM1 a) as [H0 H3]. simpl in H0, H3.
      apply lookup_store32_other; try assumption.
      pose proof (MEM1_offset_reach a i). lia.
    + rewrite (write32_out_of_range a v r) by assumption. reflexivity.
  - rewrite write32_IO by assumption.
    destruct (a =? REG_VIDEO_BG_COLOR).
    { destruct (video (memory s)); reflexivity. }
    destruct (a =? REG_INPUT_STATE); [reflexivity|].
    destruct (a =? REG_AUDIO_FREQ); [|reflexivity].
    destruct (audio (memory s)); reflexivity.
Qed.

Lemma read32_mem1_gap s a (m : gmap Z Z) :
  (forall i, ~ 0x00800003 <= i < 0x01000000 -> byte_at m i = byte_at (mem1 (memory s)) i) ->
  result (read32 a (set_memory (with_mem1 m) s)) = result (read32 a s).
Proof.
  intros E. destruct (region_of a) as [r|] eqn:Hr.
  - destruct (Z.lt_ge_cases (region_offset r a + 3) (region_size r)) as [L|G].
    + rewrite !(read32_in_bounds a r) by assumption.
      destruct r; unfold result; simpl; [|reflexivity].
      destruct (offset_uint32 MEM1 a) as [H0 H3]. simpl in H0, H3.
      apply load32_ext; try assumption.
      intros i Hi. apply E. intros Hgap. exact (MEM1_offset_reach a i Hi Hgap).
    + rewrite !(read32_out_of_range a r) by assumption. reflexivity.
  - rewrite !read32_IO by assumption. simpl.
    destruct (a =? REG_VIDEO_BG_COLOR); [reflexivity|].
    destruct (a =? REG_INPUT_STATE).
    { destruct (input (memory s)); reflexivity. }
    destruct (a =? REG_AUDIO_FREQ); reflexivity.
Qed.

(** C10, as stated, fails: the unaligned write at 0x807FFFFD has masked
    offset 0x007FFFFD, fits, and puts its last byte at offset 0x00800000. *)
Lemma MEM1_gap_counterexample :
  ~ (forall s a v i,
       0x00800000 <= i < 0x01000000 ->
       byte_at (mem1 (memory (final (write32 a v s)))) i = byte_at (mem1 (memory s)) i).
Proof.
  intros H.
  assert (Hi : 0x00800000 <= 0x00800000 < 0x01000000) by lia.
  specialize (H machine0 0x807FFFFD 0x000000AB 0x00800000 Hi).
  vm_compute in H. discriminate H.
Qed.

(** The three offsets below 0x00800003 are reached: the unaligned write at
    0x807FFFFF covers offsets 0x007FFFFF .. 0x00800002. *)
Example MEM1_gap_lower_bound :
  map (byte_at (mem1 (memory (final (write32 0x807FFFFF 0xA1B2C3D4 machine0)))))
      [0x007FFFFF; 0x00800000; 0x00800001; 0x00800002; 0x00800003]
  = [0xA1; 0xB2; 0xC3; 0xD4; 0].
Proof. vm_compute. reflexivity. Qed.

(** C10, amended: the MEM1 mask is 0x017FFFFF, with bit 23 clear; an
    address in [0x80800000, 0x81000000) or [0xC0800000, 0xC1000000) is
    treated by [read32] and [write32] exactly as the address 0x00800000
    below it; and no [write32] changes, and no [read32] depends on, the MEM1
    bytes at offsets [0x00800003, 0x01000000). *)
Theorem MEM1_mask_gap :
  wrap32 (MEM1_SIZE - 1) = 0x017FFFFF
  /\ Z.testbit (wrap32 (MEM1_SIZE - 1)) 23 = false
  /\ (forall s a v,
        0x80800000 <= a < 0x81000000 \/ 0xC0800000 <= a < 0xC1000000 ->
        MEM1_offset a = MEM1_offset (a - 0x00800000)
        /\ read32 a s = read32 (a - 0x00800000) s
        /\ write32 a v s = write32 (a - 0x00800000) v s)
  /\ (forall s a v i,
        0x00800003 <= i < 0x01000000 ->
        mem1 (memory (final (write32 a v s))) !! i = mem1 (memory s) !! i)
  /\ (forall s a (m : gmap Z Z),
        (forall i, ~ 0x00800003 <= i < 0x01000000 ->
                   byte_at m i = byte_at (mem1 (memory s)) i) ->
        result (read32 a (set_memory (with_mem1 m) s)) = result (read32 a s)).
Proof.
  split; [reflexivity|]. split; [reflexivity|].
  split; [|split; [exact write32_mem1_gap | exact read32_mem1_gap]].
  intros s a v Ha.
  destruct (MEM1_offset_upper_half a Ha) as (Hr & Hr' & E).
  assert (Hb : region_offset MEM1 a + 3 < region_size MEM1).
  { simpl. rewrite MEM1_offset_spec, MEM1_SIZE_eq.
    change (2 ^ 23) with 8388608. change (2 ^ 24) with 16777216.
    Z.div_mod_to_equations. lia. }
  assert (Hb' : region_offset MEM1 (a - 0x00800000) + 3 < region_size MEM1).
  { simpl. rewrite <- E. exact Hb. }
  split; [exact E|].
  rewrite (read32_in_bounds a MEM1), (read32_in_bounds (a - 0x00800000) MEM1) by assumption.
  rewrite (write32_in_bounds a v MEM1), (write32_in_bounds (a - 0x00800000) v MEM1)
    by assumption.
  simpl. rewrite E. split; reflexivity.
Qed.

Lemma MEM1_mask_gap_witness :
  (0x80800000 <= 0x80912344 < 0x81000000 \/ 0xC0800000 <= 0x80912344 < 0xC1000000)
  /\ read32 0x80912344 machine0 = read32 (0x80912344 - 0x00800000) machine0
  /\ 0x00800003 <= 0x00800003 < 0x01000000
  /\ mem1 (memory (final (write32 0x807FFFFF 0xFFFFFFFF machine0))) !! 0x00800003
     = mem1 (memory machine0) !! 0x00800003.
Proof.
  assert (H1 : 0x80800000 <= 0x80912344 < 0x81000000
               \/ 0xC0800000 <= 0x80912344 < 0xC1000000)
    by (left; vm_compute; split; congruence).
  assert (H2 : 0x00800003 <= 0x00800003 < 0x01000000) by (vm_compute; split; congruence).
  exact (conj H1 (conj
    (proj1 (proj2 (proj1 (proj2 (proj2 MEM1_mask_gap)) machine0 0x80912344 0 H1)))
    (conj H2
       (proj1 (proj2 (proj2 (proj2 MEM1_mask_gap))) machine0 0x807FFFFF 0xFFFFFFFF
          0x00800003 H2)))).
Defined.

(** ** Values stay within their types *)

Lemma lor_below n a b :
  0 < n -> 0 <= a < 2 ^ n -> 0 <= b < 2 ^ n -> 0 <= Z.lor a b < 2 ^ n.
Proof.
  intros Hn Ha Hb. split; [apply Z.lor_nonneg; lia|].
  destruct (Z.eq_dec (Z.lor a b) 0) as [E|E]; [rewrite E; lia|].
  assert (0 < Z.lor a b)
    by (pose proof (proj2 (Z.lor_nonneg a b) (conj (proj1 Ha) (proj1 Hb))); lia).
  apply Z.log2_lt_pow2; [assumption|].
  rewrite Z.log2_lor by lia.
  apply Z.max_lub_lt.
  - destruct (Z.eq_dec a 0) as [->|]; [simpl; lia|]. apply Z.log2_lt_pow2; lia.
  - destruct (Z.eq_dec b 0) as [->|]; [simpl; lia|]. apply Z.log2_lt_pow2; lia.
Qed.

Lemma wrap8_uint8 x : is_uint8 (wrap8 x).
Proof. apply Z.mod_pos_bound. lia. Qed.

Lemma wrap32_uint32 x : is_uint32 (wrap32 x).
Proof. apply Z.mod_pos_bound. lia. Qed.

Lemma combine32_uint32 b0 b1 b2 b3 : is_uint8 b3 -> is_uint32 (combine32 b0 b1 b2 b3).
Proof.
  unfold is_uint8. intros H3. unfold combine32, shl32.
  repeat apply lor_below; try apply wrap32_uint32; lia.
Qed.

Lemma bytes_ok_store32 (m : gmap Z Z) off v :
  0 <= off -> off + 3 < 2 ^ 32 -> bytes_ok m -> bytes_ok (store32 m off v).
Proof.
  intros H0 H3 Hm i. rewrite byte_at_store32 by assumption.
  repeat destruct (decide _); try apply wrap8_uint8. apply Hm.
Qed.

Lemma machine0_ok : Machine_ok machine0.
Proof.
  unfold Machine_ok, bytes_ok, is_uint8, is_uint32. simpl.
  refine (conj _ (conj _ (conj _ (conj _ _)))); intros;
    unfold byte_at; try rewrite lookup_empty; simpl; lia.
Qed.

(** [write32] with a [uint32_t] value keeps every stored value in range. *)
Lemma write32_ok s a v :
  is_uint32 v -> Machine_ok s -> Machine_ok (final (write32 a v s)).
Proof.
  intros Hv (M1 & M2 & Hc & Hf & Hi).
  assert (Hs : Machine_ok s) by exact (conj M1 (conj M2 (conj Hc (conj Hf Hi)))).
  destruct (region_of a) as [r|] eqn:Hr.
  - destruct (Z.lt_ge_cases (region_offset r a + 3) (region_size r)) as [L|G].
    + rewrite (write32_in_bounds a v r) by assumption.
      destruct (offset_uint32 r a) as [H0 H3].
      destruct r; unfold final, Machine_ok; simpl in *;
        refine (conj _ (conj _ (conj Hc (conj Hf Hi)))); try assumption;
        apply bytes_ok_store32; assumption.
    + rewrite (write32_out_of_range a v r) by assumption. exact Hs.
  - rewrite write32_IO by assumption.
    destruct (a =? REG_VIDEO_BG_COLOR).
    { destruct (video (memory s)); unfold final, Machine_ok; simpl;
        exact (conj M1 (conj M2 (conj Hv (conj Hf Hi)))). }
    destruct (a =? REG_INPUT_STATE); [exact Hs|].
    destruct (a =? REG_AUDIO_FREQ); [|exact Hs].
    destruct (audio (memory s)); unfold final, Machine_ok; simpl;
      exact (conj M1 (conj M2 (conj Hc (conj Hv Hi)))).
Qed.

Lemma zero_uint32 : is_uint32 0.
Proof. unfold is_uint32. lia. Qed.

(** [read32] returns a [uint32_t]. *)
Lemma read32_uint32 s a : Machine_ok s -> is_uint32 (result (read32 a s)).
Proof.
  intros (M1 & M2 & Hc & Hf & Hi).
  destruct (region_of a) as [r|] eqn:Hr.
  - destruct (Z.lt_ge_cases (region_offset r a + 3) (region_size r)) as [L|G].
    + rewrite (read32_in_bounds a r) by assumption.
      unfold result, load32. cbn [fst]. apply combine32_uint32.
      destruct r; [apply M1 | apply M2].
    + rewrite (read32_out_of_range a r) by assumption. exact zero_uint32.
  - rewrite read32_IO by assumption.
    destruct (a =? REG_VIDEO_BG_COLOR); [exact Hc|].
    destruct (a =? REG_INPUT_STATE).
    { destruct (input (memory s)); [apply Hi | exact zero_uint32]. }
    destruct (a =? REG_AUDIO_FREQ); [exact Hf | exact zero_uint32].
Qed.

(** ** The emulator's own uses (lines 361, 384-385, 391-392) *)

Example memory_test :
  result ((write32 0x80000000 0xDEADBEEF;; read32 0x80000000) machine0) = 0xDEADBEEF.
Proof. vm_compute. reflexivity. Qed.

Example background_color_bound :
  events ((WiiEmulator_connect;; write32 REG_VIDEO_BG_COLOR 0x112233FF) machine0)
  = [call_setBackgroundColor 0%nat 0x112233FF].
Proof. vm_compute. reflexivity. Qed.

Example background_color_unbound :
  (write32 REG_VIDEO_BG_COLOR 0x112233FF;; read32 REG_VIDEO_BG_COLOR) machine0
  = (0x112233FF, set_memory (with_videoBgColor 0x112233FF) machine0, []).
Proof. vm_compute. reflexivity. Qed.

Example input_state_bound :
  events ((WiiEmulator_connect;; read32 REG_INPUT_STATE) machine0)
  = [call_getButtonState 0%nat].
Proof. vm_compute. reflexivity. Qed.

(** * Further properties of the bus *)

(** ** The tone-frequency register *)

(** A [write32] of [v] to the tone-frequency register stores [v], makes
    exactly one call, [setToneFrequency] with [v], on the bound audio
    peripheral (none when unbound), leaves RAM, the background colour and
    the bindings alone, and a [read32] of the register then returns [v]. *)
Theorem audio_freq_register_write s v :
  let w := write32 REG_AUDIO_FREQ v s in
  audioFreqValue (memory (final w)) = v
  /\ events w = match audio (memory s) with
                | Some p => [call_setToneFrequency p v]
                | None => []
                end
  /\ match audio (memory s) with
     | Some p => frequency (audios (final w) p) = v
     | None => audios (final w) = audios s
     end
  /\ memory (final w) = with_audioFreqValue v (memory s)
  /\ videos (final w) = videos s /\ inputs (final w) = inputs s
  /\ result (read32 REG_AUDIO_FREQ (final w)) = v.
Proof.
  intros w. subst w.
  rewrite write32_IO by reflexivity.
  change (REG_AUDIO_FREQ =? REG_VIDEO_BG_COLOR) with false.
  change (REG_AUDIO_FREQ =? REG_INPUT_STATE) with false.
  change (REG_AUDIO_FREQ =? REG_AUDIO_FREQ) with true. cbv iota.
  destruct (audio (memory s)) as [p|]; unfold final; simpl.
  - rewrite fn_lookup_insert. repeat split.
  - repeat split.
Qed.

(** ** Binding *)

(** Binding replaces the previous binding of that kind: after
    [connectVideo], [connectAudio] or [connectInput] with a peripheral, the
    register access reaches that peripheral, whatever was bound before;
    after binding [nullptr] the register writes call nothing and the input
    register reads 0. *)
Theorem connect_rebinds s p v :
  events ((connectVideo (Some p);; write32 REG_VIDEO_BG_COLOR v) s)
    = [call_setBackgroundColor p v]
  /\ events ((connectVideo None;; write32 REG_VIDEO_BG_COLOR v) s) = []
  /\ events ((connectAudio (Some p);; write32 REG_AUDIO_FREQ v) s)
       = [call_setToneFrequency p v]
  /\ events ((connectAudio None;; write32 REG_AUDIO_FREQ v) s) = []
  /\ (connectInput (Some p);; read32 REG_INPUT_STATE) s
       = (buttonState (inputs s p), set_memory (with_input (Some p)) s,
          [call_getButtonState p])
  /\ (connectInput None;; read32 REG_INPUT_STATE) s
       = (0, set_memory (with_input None) s, []).
Proof.
  unfold bind, connectVideo, connectAudio, connectInput, modify.
  rewrite !write32_IO, !read32_IO by reflexivity.
  repeat split.
Qed.

(** Binding touches nothing but the one pointer: every [read32] outside the
    three registers returns what it returned before. *)
Theorem connect_keeps_memory s a vp ap ip :
  a <> REG_VIDEO_BG_COLOR -> a <> REG_INPUT_STATE -> a <> REG_AUDIO_FREQ ->
  let s' := final ((connectVideo vp;; connectAudio ap;; connectInput ip) s) in
  mem1 (memory s') = mem1 (memory s) /\ mem2 (memory s') = mem2 (memory s)
  /\ videoBgColor (memory s') = videoBgColor (memory s)
  /\ audioFreqValue (memory s') = audioFreqValue (memory s)
  /\ read32 a s' = (result (read32 a s), s', events (read32 a s)).
Proof.
  intros Hv Hi Ha s'. subst s'.
  unfold bind, connectVideo, connectAudio, connectInput, modify, final. simpl.
  split; [reflexivity|]. split; [reflexivity|]. split; [reflexivity|].
  split; [reflexivity|].
  destruct (region_of a) as [r|] eqn:Hr.
  - destruct (Z.lt_ge_cases (region_offset r a + 3) (region_size r)) as [L|G].
    + rewrite !(read32_in_bounds a r) by assumption. destruct r; reflexivity.
    + rewrite !(read32_out_of_range a r) by assumption. reflexivity.
  - rewrite !read32_IO by assumption.
    apply Z.eqb_neq in Hv, Hi, Ha. rewrite Hv, Hi, Ha. reflexivity.
Qed.

Lemma connect_keeps_memory_witness :
  0x80000010 <> REG_VIDEO_BG_COLOR /\ 0x80000010 <> REG_INPUT_STATE
  /\ 0x80000010 <> REG_AUDIO_FREQ
  /\ mem1 (memory (final ((connectVideo (Some 0%nat);; connectAudio None;;
                           connectInput (Some 2%nat)) machine0)))
     = mem1 (memory machine0).
Proof.
  assert (H1 : 0x80000010 <> REG_VIDEO_BG_COLOR) by discriminate.
  assert (H2 : 0x80000010 <> REG_INPUT_STATE) by discriminate.
  assert (H3 : 0x80000010 <> REG_AUDIO_FREQ) by discriminate.
  exact (conj H1 (conj H2 (conj H3
    (proj1 (connect_keeps_memory machine0 0x80000010 (Some 0%nat) None (Some 2%nat)
              H1 H2 H3))))).
Defined.

(** ** RAM accesses *)

Lemma backing_other_region r r' x m :
  r <> r' -> backing r' (with_backing r x m) = backing r' m.
Proof. destruct r, r'; intros H; try reflexivity; contradiction. Qed.

(** The round trip needs no alignment: at every address of a window whose
    word fits, [read32] returns the value that [write32] just stored. *)
Theorem write32_read32_any_alignment s a r v :
  region_of a = Some r -> region_offset r a + 3 < region_size r -> is_uint32 v ->
  result ((write32 a v;; read32 a) s) = v.
Proof.
  intros Hr Hb Hv. unfold bind.
  rewrite (write32_in_bounds a v r) by assumption.
  rewrite (read32_in_bounds a r) by assumption.
  unfold result, set_memory. simpl. rewrite backing_with_backing.
  apply load32_store32; [apply offset_uint32 .. | exact Hv].
Qed.

Lemma write32_read32_any_alignment_witness :
  region_of 0xD3FFFFFB = Some MEM2
  /\ region_offset MEM2 0xD3FFFFFB + 3 < region_size MEM2
  /\ is_uint32 0xCAFEF00D
  /\ result ((write32 0xD3FFFFFB 0xCAFEF00D;; read32 0xD3FFFFFB) machine0) = 0xCAFEF00D.
Proof.
  assert (H1 : region_of 0xD3FFFFFB = Some MEM2) by reflexivity.
  assert (H2 : region_offset MEM2 0xD3FFFFFB + 3 < region_size MEM2) by reflexivity.
  assert (H3 : is_uint32 0xCAFEF00D) by (vm_compute; split; congruence).
  exact (conj H1 (conj H2 (conj H3
    (write32_read32_any_alignment machine0 0xD3FFFFFB MEM2 0xCAFEF00D H1 H2 H3)))).
Defined.

(** An in-bounds [write32] changes the four bytes of its word and nothing
    else: every other byte of the region, the other region, the registers,
    the bindings and the peripherals stay as they were, and nothing is
    logged or called. *)
Theorem write32_RAM_frame s a r v :
  region_of a = Some r -> region_offset r a + 3 < region_size r ->
  let w := write32 a v s in
  let off := region_offset r a in
  (forall i, i < off \/ off + 3 < i ->
             backing r (memory (final w)) !! i = backing r (memory s) !! i)
  /\ (forall r', r' <> r -> backing r' (memory (final w)) = backing r' (memory s))
  /\ videoBgColor (memory (final w)) = videoBgColor (memory s)
  /\ audioFreqValue (memory (final w)) = audioFreqValue (memory s)
  /\ video (memory (final w)) = video (memory s)
  /\ audio (memory (final w)) = audio (memory s)
  /\ input (memory (final w)) = input (memory s)
  /\ videos (final w) = videos s /\ audios (final w) = audios s
  /\ inputs (final w) = inputs s
  /\ events w = [].
Proof.
  intros Hr Hb w off. subst w off.
  rewrite (write32_in_bounds a v r) by assumption.
  destruct (offset_uint32 r a) as [H0 H3].
  unfold final, set_memory. simpl.
  split.
  { intros i Hi. rewrite backing_with_backing.
    apply lookup_store32_other; assumption. }
  split.
  { intros r' Hne. apply backing_other_region. congruence. }
  destruct r; repeat split.
Qed.

Lemma write32_RAM_frame_witness :
  region_of 0x80000004 = Some MEM1
  /\ region_offset MEM1 0x80000004 + 3 < region_size MEM1
  /\ events (write32 0x80000004 0x01020304 machine0) = [].
Proof.
  assert (H1 : region_of 0x80000004 = Some MEM1) by reflexivity.
  assert (H2 : region_offset MEM1 0x80000004 + 3 < region_size MEM1) by reflexivity.
  exact (conj H1 (conj H2
    (proj2 (proj2 (proj2 (proj2 (proj2 (proj2 (proj2 (proj2 (proj2 (proj2
       (write32_RAM_frame machine0 0x80000004 MEM1 0x01020304 H1 H2))))))))))))).
Defined.

(** A read is not disturbed by a write elsewhere: [read32 a] returns the
    same value after [write32 b v] when [b] is outside RAM, out of range, in
    the other region, or in the same region with the two words apart. *)
Theorem write32_elsewhere_read32 s a b r v :
  region_of a = Some r ->
  (region_of b = Some r -> region_offset r b + 3 < region_size r ->
   region_offset r b + 3 < region_offset r a
   \/ region_offset r a + 3 < region_offset r b) ->
  result (read32 a (final (write32 b v s))) = result (read32 a s).
Proof.
  intros Ha Hsep.
  destruct (Z.lt_ge_cases (region_offset r a + 3) (region_size r)) as [La|Ga];
    [|rewrite !(read32_out_of_range a r) by assumption; reflexivity].
  rewrite !(read32_in_bounds a r) by assumption. unfold result. cbn [fst].
  destruct (offset_uint32 r a) as [A0 A3].
  destruct (region_of b) as [rb|] eqn:Hb.
  - destruct (Z.lt_ge_cases (region_offset rb b + 3) (region_size rb)) as [Lb|Gb];
      [|rewrite (write32_out_of_range b v rb) by assumption; reflexivity].
    rewrite (write32_in_bounds b v rb) by assumption.
    unfold final, set_memory. simpl.
    assert (D : rb = r \/ rb <> r)
      by (destruct rb, r; (left; reflexivity) || (right; discriminate)).
    destruct D as [->|Hne].
    + rewrite backing_with_backing.
      specialize (Hsep eq_refl Lb).
      destruct (offset_uint32 r b) as [B0 B3].
      apply load32_ext; try assumption.
      intros i Hi. unfold byte_at.
      rewrite lookup_store32_other by (assumption || lia). reflexivity.
    + rewrite backing_other_region by assumption. reflexivity.
  - rewrite write32_IO by assumption.
    destruct (b =? REG_VIDEO_BG_COLOR).
    { destruct (video (memory s)); destruct r; reflexivity. }
    destruct (b =? REG_INPUT_STATE); [reflexivity|].
    destruct (b =? REG_AUDIO_FREQ); [|reflexivity].
    destruct (audio (memory s)); destruct r; reflexivity.
Qed.

Lemma write32_elsewhere_read32_witness :
  region_of 0x80000008 = Some MEM1
  /\ (region_of 0xC000000C = Some MEM1 ->
      region_offset MEM1 0xC000000C + 3 < region_size MEM1 ->
      region_offset MEM1 0xC000000C + 3 < region_offset MEM1 0x80000008
      \/ region_offset MEM1 0x80000008 + 3 < region_offset MEM1 0xC000000C)
  /\ result (read32 0x80000008 (final (write32 0xC000000C 0xFFFFFFFF machine0)))
     = result (read32 0x80000008 machine0).
Proof.
  assert (H1 : region_of 0x80000008 = Some MEM1) by reflexivity.
  assert (H2 : region_of 0xC000000C = Some MEM1 ->
               region_offset MEM1 0xC000000C + 3 < region_size MEM1 ->
               region_offset MEM1 0xC000000C + 3 < region_offset MEM1 0x80000008
               \/ region_offset MEM1 0x80000008 + 3 < region_offset MEM1 0xC000000C)
    by (intros _ _; right; reflexivity).
  exact (conj H1 (conj H2
    (write32_elsewhere_read32 machine0 0x80000008 0xC000000C MEM1 0xFFFFFFFF H1 H2))).
Defined.

Lemma store32_store32 (m : gmap Z Z) off v1 v2 :
  0 <= off -> off + 3 < 2 ^ 32 ->
  store32 (store32 m off v1) off v2 = store32 m off v2.
Proof.
  intros H0 H3. apply map_eq. intros i. unfold store32.
  rewrite !wrap32_small by lia.
  rewrite !lookup_insert.
  repeat (destruct (decide _); try reflexivity; try lia).
Qed.

(** The last write wins: a second [write32] at the same address leaves the
    machine exactly as if the first had not happened. *)
Theorem write32_overwrite s a r v1 v2 :
  region_of a = Some r ->
  final ((write32 a v1;; write32 a v2) s) = final (write32 a v2 s).
Proof.
  intros Hr. unfold bind.
  destruct (Z.lt_ge_cases (region_offset r a + 3) (region_size r)) as [L|G].
  - rewrite !(write32_in_bounds a _ r) by assumption.
    destruct (offset_uint32 r a) as [H0 H3].
    unfold final, set_memory. simpl.
    destruct r; simpl in *; unfold with_mem1, with_mem2; simpl;
      rewrite store32_store32 by assumption; reflexivity.
  - rewrite !(write32_out_of_range a _ r) by assumption. reflexivity.
Qed.

Lemma write32_overwrite_witness :
  region_of 0x90000000 = Some MEM2
  /\ final ((write32 0x90000000 1;; write32 0x90000000 2) machine0)
     = final (write32 0x90000000 2 machine0).
Proof.
  assert (H1 : region_of 0x90000000 = Some MEM2) by reflexivity.
  exact (conj H1 (write32_overwrite machine0 0x90000000 MEM2 1 2 H1)).
Defined.

(** With the bus as its constructor leaves it, every [read32] returns 0,
    at every address: RAM is zeroed, the two stored registers are 0 and no
    input peripheral is bound. *)
Theorem fresh_memory_reads_zero vs os ins a :
  result (read32 a (mkMachine Memory_new vs os ins)) = 0.
Proof.
  destruct (region_of a) as [r|] eqn:Hr.
  - destruct (Z.lt_ge_cases (region_offset r a + 3) (region_size r)) as [L|G].
    + rewrite (read32_in_bounds a r) by assumption.
      unfold result, load32, byte_at. destruct r; simpl; rewrite !lookup_empty; reflexivity.
    + rewrite (read32_out_of_range a r) by assumption. reflexivity.
  - rewrite read32_IO by assumption. simpl.
    destruct (a =? REG_VIDEO_BG_COLOR); [reflexivity|].
    destruct (a =? REG_INPUT_STATE); [reflexivity|].
    destruct (a =? REG_AUDIO_FREQ); reflexivity.
Qed.

(** ** The value that [read32] assembles *)

Lemma combine32_value b0 b1 b2 b3 :
  is_uint8 b0 -> is_uint8 b1 -> is_uint8 b2 -> is_uint8 b3 ->
  combine32 b0 b1 b2 b3 = b0 * 2 ^ 24 + b1 * 2 ^ 16 + b2 * 2 ^ 8 + b3.
Proof.
  unfold is_uint8. intros H0 H1 H2 H3.
  set (v := b0 * 2 ^ 24 + b1 * 2 ^ 16 + b2 * 2 ^ 8 + b3).
  assert (Hv : is_uint32 v) by (unfold is_uint32; subst v; lia).
  assert (E0 : wrap8 (Z.land (Z.shiftr v 24) 0xFF) = b0).
  { rewrite stored_byte by lia. subst v.
    change (2 ^ 24) with 16777216. change (2 ^ 16) with 65536.
    change (2 ^ 8) with 256 in *. Z.div_mod_to_equations. lia. }
  assert (E1 : wrap8 (Z.land (Z.shiftr v 16) 0xFF) = b1).
  { rewrite stored_byte by lia. subst v.
    change (2 ^ 24) with 16777216. change (2 ^ 16) with 65536.
    change (2 ^ 8) with 256 in *. Z.div_mod_to_equations. lia. }
  assert (E2 : wrap8 (Z.land (Z.shiftr v 8) 0xFF) = b2).
  { rewrite stored_byte by lia. subst v.
    change (2 ^ 24) with 16777216. change (2 ^ 16) with 65536.
    change (2 ^ 8) with 256 in *. Z.div_mod_to_equations. lia. }
  assert (E3 : wrap8 (Z.land v 0xFF) = b3).
  { rewrite stored_byte0. subst v.
    change (2 ^ 24) with 16777216. change (2 ^ 16) with 65536.
    change (2 ^ 8) with 256 in *. Z.div_mod_to_equations. lia. }
  rewrite <- E0 at 1. rewrite <- E1 at 1. rewrite <- E2 at 1. rewrite <- E3 at 1.
  apply combine32_split. exact Hv.
Qed.

Lemma read32_in_bounds_value s a r :
  Machine_ok s ->
  region_of a = Some r -> region_offset r a + 3 < region_size r ->
  result (read32 a s)
  = byte_at (backing r (memory s)) (region_offset r a) * 2 ^ 24
    + byte_at (backing r (memory s)) (region_offset r a + 1) * 2 ^ 16
    + byte_at (backing r (memory s)) (region_offset r a + 2) * 2 ^ 8
    + byte_at (backing r (memory s)) (region_offset r a + 3).
Proof.
  intros (M1 & M2 & _) Hr Hb.
  rewrite (read32_in_bounds a r) by assumption.
  destruct (offset_uint32 r a) as [H0 H3].
  unfold result, load32. cbn [fst]. rewrite !wrap32_small by lia.
  assert (B : bytes_ok (backing r (memory s))) by (destruct r; assumption).
  apply combine32_value; apply B.
Qed.





(** ** Values stay within their types, over whole runs *)

Lemma write_all_ok ws :
  forall s, Forall (fun w => is_uint32 (snd w)) ws -> Machine_ok s ->
            Machine_ok (final (write_all ws s)).
Proof.
  induction ws as [|[a v] ws IH]; intros s Hws Hs; [exact Hs|].
  inversion Hws as [|? ? Hv Hrest]; subst. simpl in Hv.
  simpl. unfold bind.
  pose proof (write32_ok s a v Hv Hs) as H1.
  destruct (write32 a v s) as [[u s1] t1] eqn:E1. unfold final in H1. simpl in H1.
  pose proof (IH s1 Hrest H1) as H2.
  destruct (write_all ws s1) as [[u2 s2] t2]. exact H2.
Qed.

(** From the constructed bus, after any sequence of [write32] with 32-bit
    values, at any addresses, every RAM byte is below 256 and every
    [read32] returns a 32-bit value. *)
Theorem bus_values_in_range ws a :
  Forall (fun w => is_uint32 (snd w)) ws ->
  let s := final (write_all ws machine0) in
  bytes_ok (mem1 (memory s)) /\ bytes_ok (mem2 (memory s))
  /\ is_uint32 (result (read32 a s)).
Proof.
  intros Hws s.
  pose proof (write_all_ok ws machine0 Hws machine0_ok) as Hs. fold s in Hs.
  split; [apply Hs|]. split; [apply Hs|].
  apply read32_uint32. exact Hs.
Qed.

Lemma bus_values_in_range_witness :
  Forall (fun w => is_uint32 (snd w)) [(0x80000000, 0xDEADBEEF); (0x0D000000, 7)]
  /\ is_uint32 (result (read32 0x80000002
       (final (write_all [(0x80000000, 0xDEADBEEF); (0x0D000000, 7)] machine0)))).
Proof.
  assert (H : Forall (fun w => is_uint32 (snd w))
                     [(0x80000000, 0xDEADBEEF); (0x0D000000, 7)]).
  { constructor; [vm_compute; split; congruence|].
    constructor; [vm_compute; split; congruence|]. constructor. }
  exact (conj H (proj2 (proj2
    (bus_values_in_range [(0x80000000, 0xDEADBEEF); (0x0D000000, 7)] 0x80000002 H)))).
Defined.

(** * The input peripheral *)

Lemma set_bits_bit st k n :
  0 <= k -> Z.testbit (set_bits st (2 ^ k)) n = if decide (k = n) then true else Z.testbit st n.
Proof.
  intros Hk. unfold set_bits. rewrite Z.lor_spec, Z.pow2_bits_eqb by lia.
  destruct (decide (k = n)) as [->|Hne].
  - rewrite Z.eqb_refl. apply orb_true_r.
  - rewrite (proj2 (Z.eqb_neq k n)) by assumption. apply orb_false_r.
Qed.

Lemma clear_bits_bit st k n :
  0 <= k < 32 -> 0 <= n -> n < 32 \/ is_uint32 st ->
  Z.testbit (clear_bits st (2 ^ k)) n = if decide (k = n) then false else Z.testbit st n.
Proof.
  intros Hk Hn Hst. unfold clear_bits, wrap32.
  rewrite Z.land_spec, Z.testbit_mod_pow2, Z.lnot_spec, Z.pow2_bits_eqb by lia.
  destruct (decide (k = n)) as [->|Hne].
  - rewrite Z.eqb_refl. simpl. rewrite andb_false_r. apply andb_false_r.
  - rewrite (proj2 (Z.eqb_neq k n)) by assumption. simpl. rewrite andb_true_r.
    destruct (Z.lt_ge_cases n 32) as [L|G].
    + rewrite (proj2 (Z.ltb_lt n 32)) by assumption. apply andb_true_r.
    + destruct Hst as [?|Hst]; [lia|].
      rewrite (testbit_high 32 st n) by (assumption || lia). reflexivity.
Qed.

(** One event changes exactly the bit it touches. *)
Lemma Input_handle_bit st e n :
  0 <= n -> n < 32 \/ is_uint32 st ->
  Z.testbit (Input_handle st e) n
  = match touches n e with Some b => b | None => Z.testbit st n end.
Proof.
  intros Hn Hst.
  destruct e as [|sym|sym|]; simpl.
  - change 0x80000000 with (2 ^ 31). rewrite set_bits_bit by lia.
    destruct (decide (31 = n)) as [<-|Hne]; [reflexivity|].
    rewrite (proj2 (Z.eqb_neq n 31)) by lia. reflexivity.
  - destruct sym; simpl;
      try (destruct (decide (None = Some n)); [discriminate | reflexivity]).
    + change 1 with (2 ^ 0). rewrite set_bits_bit by lia.
      destruct (decide (0 = n)), (decide (Some 0 = Some n)); congruence.
    + change 2 with (2 ^ 1). rewrite set_bits_bit by lia.
      destruct (decide (1 = n)), (decide (Some 1 = Some n)); congruence.
    + change 4 with (2 ^ 2). rewrite set_bits_bit by lia.
      destruct (decide (2 = n)), (decide (Some 2 = Some n)); congruence.
    + change 8 with (2 ^ 3). rewrite set_bits_bit by lia.
      destruct (decide (3 = n)), (decide (Some 3 = Some n)); congruence.
    + change 16 with (2 ^ 4). rewrite set_bits_bit by lia.
      destruct (decide (4 = n)), (decide (Some 4 = Some n)); congruence.
    + change 32 with (2 ^ 5). rewrite set_bits_bit by lia.
      destruct (decide (5 = n)), (decide (Some 5 = Some n)); congruence.
    + change 64 with (2 ^ 6). rewrite set_bits_bit by lia.
      destruct (decide (6 = n)), (decide (Some 6 = Some n)); congruence.
  - destruct sym; simpl;
      try (destruct (decide (None = Some n)); [discriminate | reflexivity]).
    + change 1 with (2 ^ 0). rewrite clear_bits_bit by (assumption || lia).
      destruct (decide (0 = n)), (decide (Some 0 = Some n)); congruence.
    + change 2 with (2 ^ 1). rewrite clear_bits_bit by (assumption || lia).
      destruct (decide (1 = n)), (decide (Some 1 = Some n)); congruence.
    + change 4 with (2 ^ 2). rewrite clear_bits_bit by (assumption || lia).
      destruct (decide (2 = n)), (decide (Some 2 = Some n)); congruence.
    + change 8 with (2 ^ 3). rewrite clear_bits_bit by (assumption || lia).
      destruct (decide (3 = n)), (decide (Some 3 = Some n)); congruence.
    + change 16 with (2 ^ 4). rewrite clear_bits_bit by (assumption || lia).
      destruct (decide (4 = n)), (decide (Some 4 = Some n)); congruence.
    + change 32 with (2 ^ 5). rewrite clear_bits_bit by (assumption || lia).
      destruct (decide (5 = n)), (decide (Some 5 = Some n)); congruence.
    + change 64 with (2 ^ 6). rewrite clear_bits_bit by (assumption || lia).
      destruct (decide (6 = n)), (decide (Some 6 = Some n)); congruence.
  - reflexivity.
Qed.

Lemma land_below n a b :
  0 < n -> 0 <= a < 2 ^ n -> 0 <= b -> 0 <= Z.land a b < 2 ^ n.
Proof.
  intros Hn Ha Hb. split; [apply Z.land_nonneg; lia|].
  destruct (Z.eq_dec (Z.land a b) 0) as [E|E]; [rewrite E; lia|].
  assert (0 <= Z.land a b) by (apply Z.land_nonneg; lia).
  assert (a <> 0) by (intros ->; rewrite Z.land_0_l in E; congruence).
  apply Z.log2_lt_pow2; [lia|].
  pose proof (Z.log2_land a b (proj1 Ha) Hb) as L.
  assert (Z.log2 a < n) by (apply Z.log2_lt_pow2; lia).
  lia.
Qed.

Lemma Input_handle_uint32 st e : is_uint32 st -> is_uint32 (Input_handle st e).
Proof.
  unfold is_uint32. intros Hst.
  assert (S : forall m, 0 <= m < 2 ^ 32 -> 0 <= set_bits st m < 2 ^ 32)
    by (intros m Hm; apply lor_below; lia).
  assert (C : forall m, 0 <= clear_bits st m < 2 ^ 32).
  { intros m. unfold clear_bits. apply land_below; [lia | assumption |].
    apply (wrap32_uint32 (Z.lnot m)). }
  destruct e as [|sym|sym|]; simpl; try assumption;
    try destruct sym; try assumption; try apply C; apply S; lia.
Qed.

Lemma fold_Input_handle_uint32 polled :
  forall st, is_uint32 st -> is_uint32 (fold_left Input_handle polled st).
Proof.
  induction polled as [|e rest IH]; intros st Hst; [exact Hst|].
  simpl. apply IH. apply Input_handle_uint32. exact Hst.
Qed.

Lemma fold_Input_handle_bit polled n :
  0 <= n ->
  forall st, n < 32 \/ is_uint32 st ->
  Z.testbit (fold_left Input_handle polled st) n
  = match last_touch n polled with Some b => b | None => Z.testbit st n end.
Proof.
  intros Hn. induction polled as [|e rest IH]; intros st Hst; [reflexivity|].
  simpl. rewrite IH.
  - destruct (last_touch n rest); [reflexivity|].
    apply Input_handle_bit; assumption.
  - destruct Hst as [?|Hst]; [left; assumption|right].
    apply Input_handle_uint32. exact Hst.
Qed.

(** After [update], each bit of the 32-bit button state is what the last
    polled event about it says (down sets it, up clears it, quit sets bit
    31), and a bit that no polled event is about keeps its value. *)
Theorem Input_update_last_event_wins polled i n :
  0 <= n < 32 ->
  Z.testbit (buttonState (Input_update polled i)) n
  = match last_touch n polled with
    | Some b => b
    | None => Z.testbit (buttonState i) n
    end.
Proof.
  intros Hn. unfold Input_update. simpl.
  apply fold_Input_handle_bit; [lia | left; lia].
Qed.

Lemma Input_update_last_event_wins_witness :
  0 <= 4 < 32
  /\ Z.testbit (buttonState (Input_update
       [SDL_KEYDOWN SDLK_a; SDL_KEYDOWN SDLK_UP; SDL_KEYUP SDLK_a; SDL_KEYDOWN SDLK_a]
       (mkInput 0))) 4
     = match last_touch 4
         [SDL_KEYDOWN SDLK_a; SDL_KEYDOWN SDLK_UP; SDL_KEYUP SDLK_a; SDL_KEYDOWN SDLK_a]
       with Some b => b | None => Z.testbit (buttonState (mkInput 0)) 4 end.
Proof.
  assert (H : 0 <= 4 < 32) by (split; [discriminate | reflexivity]).
  exact (conj H (Input_update_last_event_wins
    [SDL_KEYDOWN SDLK_a; SDL_KEYDOWN SDLK_UP; SDL_KEYUP SDLK_a; SDL_KEYDOWN SDLK_a]
    (mkInput 0) 4 H)).
Defined.

(** [update] keeps the button state a 32-bit value. *)
Theorem Input_update_uint32 polled i :
  is_uint32 (buttonState i) -> is_uint32 (buttonState (Input_update polled i)).
Proof.
  intros H. unfold Input_update. simpl.
  apply fold_Input_handle_uint32. exact H.
Qed.

Lemma Input_update_uint32_witness :
  is_uint32 (buttonState (mkInput 0x80000041))
  /\ is_uint32 (buttonState (Input_update [SDL_KEYUP SDLK_SPACE; SDL_QUIT]
                                          (mkInput 0x80000041))).
Proof.
  assert (H : is_uint32 (buttonState (mkInput 0x80000041)))
    by (vm_compute; split; congruence).
  exact (conj H (Input_update_uint32 [SDL_KEYUP SDLK_SPACE; SDL_QUIT]
                                     (mkInput 0x80000041) H)).
Defined.

Lemma land_pow2_nonzero st k :
  0 <= k -> negb (Z.land st (2 ^ k) =? 0) = Z.testbit st k.
Proof.
  intros Hk.
  assert (E : Z.land st (2 ^ k) = if Z.testbit st k then 2 ^ k else 0).
  { apply Z.bits_inj'. intros n Hn.
    rewrite Z.land_spec, Z.pow2_bits_eqb by lia.
    destruct (Z.eqb_spec k n) as [->|Hne].
    - rewrite andb_true_r. destruct (Z.testbit st n).
      + rewrite Z.pow2_bits_true by lia. reflexivity.
      + rewrite Z.bits_0. reflexivity.
    - rewrite andb_false_r. destruct (Z.testbit st k).
      + rewrite Z.pow2_bits_false by lia. reflexivity.
      + rewrite Z.bits_0. reflexivity. }
  rewrite E. destruct (Z.testbit st k).
  - assert (0 < 2 ^ k) by (apply Z.pow_pos_nonneg; lia).
    rewrite (proj2 (Z.eqb_neq (2 ^ k) 0)) by lia. reflexivity.
  - reflexivity.
Qed.

Lemma Input_shouldQuit_bit i : Input_shouldQuit i = Z.testbit (buttonState i) 31.
Proof.
  unfold Input_shouldQuit. change 0x80000000 with (2 ^ 31).
  apply land_pow2_nonzero. lia.
Qed.

Lemma touches_quit e :
  (touches 31 e = Some true /\ e = SDL_QUIT) \/ (touches 31 e = None /\ e <> SDL_QUIT).
Proof.
  destruct e as [|sym|sym|]; simpl.
  - left. split; reflexivity.
  - right. split; [|discriminate]. destruct sym; reflexivity.
  - right. split; [|discriminate]. destruct sym; reflexivity.
  - right. split; [reflexivity | discriminate].
Qed.

Lemma last_touch_quit polled :
  (last_touch 31 polled = Some true /\ In SDL_QUIT polled)
  \/ (last_touch 31 polled = None /\ ~ In SDL_QUIT polled).
Proof.
  induction polled as [|e rest IH]; simpl.
  - right. split; [reflexivity | tauto].
  - destruct IH as [[E Hin]|[E Hnin]]; rewrite E.
    + left. split; [reflexivity | right; exact Hin].
    + destruct (touches_quit e) as [[T ->]|[T Hne]]; rewrite T.
      * left. split; [reflexivity | left; reflexivity].
      * right. split; [reflexivity|]. intros [H|H]; [congruence | contradiction].
Qed.

Lemma Input_update_shouldQuit polled i :
  Input_shouldQuit (Input_update polled i) = true
  <-> Input_shouldQuit i = true \/ In SDL_QUIT polled.
Proof.
  rewrite !Input_shouldQuit_bit.
  unfold Input_update. cbn [buttonState].
  rewrite fold_Input_handle_bit by (lia || (left; lia)).
  destruct (last_touch_quit polled) as [[E Hin]|[E Hnin]]; rewrite E; tauto.
Qed.

(** The quit flag is sticky: after [update], [shouldQuit] holds exactly when
    it held before or an [SDL_QUIT] was among the polled events; no event
    clears it. *)
Theorem Input_quit_sticky polled i :
  Input_shouldQuit (Input_update polled i) = true
  <-> Input_shouldQuit i = true \/ In SDL_QUIT polled.
Proof. apply Input_update_shouldQuit. Qed.

Lemma Input_quit_sticky_witness :
  (Input_shouldQuit (mkInput 0x00000041) = true
   \/ In SDL_QUIT [SDL_KEYDOWN SDLK_a; SDL_QUIT; SDL_KEYUP SDLK_UP])
  /\ Input_shouldQuit
       (Input_update [SDL_KEYDOWN SDLK_a; SDL_QUIT; SDL_KEYUP SDLK_UP]
                     (mkInput 0x00000041)) = true.
Proof.
  assert (H : Input_shouldQuit (mkInput 0x00000041) = true
              \/ In SDL_QUIT [SDL_KEYDOWN SDLK_a; SDL_QUIT; SDL_KEYUP SDLK_UP])
    by (right; right; left; reflexivity).
  exact (conj H
    (proj2 (Input_quit_sticky [SDL_KEYDOWN SDLK_a; SDL_QUIT; SDL_KEYUP SDLK_UP]
                              (mkInput 0x00000041)) H)).
Defined.

(** * The video peripheral *)

(** After a 32-bit [v] is written to the background-colour register with a
    video peripheral bound, [render] clears the screen with the colour whose
    red, green, blue and alpha channels are the four bytes of [v], most
    significant first, then draws the white frame and presents. *)
Theorem render_after_register_write s p v :
  video (memory s) = Some p -> is_uint32 v ->
  let s' := final (write32 REG_VIDEO_BG_COLOR v s) in
  let r := v / 2 ^ 24 in
  let g := (v / 2 ^ 16) mod 2 ^ 8 in
  let b := (v / 2 ^ 8) mod 2 ^ 8 in
  let a := v mod 2 ^ 8 in
  Video_render (videos s' p)
  = [SDL_SetRenderDrawColor r g b a; SDL_RenderClear;
     SDL_SetRenderDrawColor 255 255 255 255; SDL_RenderDrawRect 10 10 200 50;
     SDL_RenderPresent]
  /\ is_uint8 r /\ is_uint8 g /\ is_uint8 b /\ is_uint8 a
  /\ v = r * 2 ^ 24 + g * 2 ^ 16 + b * 2 ^ 8 + a.
Proof.
  intros Hp Hv s' r g b a. subst s'.
  rewrite write32_IO by reflexivity.
  change (REG_VIDEO_BG_COLOR =? REG_VIDEO_BG_COLOR) with true. cbv iota.
  rewrite Hp. unfold final. cbn [fst snd videos].
  rewrite fn_lookup_insert. unfold Video_render. cbn [bgColor].
  rewrite !stored_byte by lia. rewrite stored_byte0.
  unfold is_uint32 in Hv. unfold is_uint8. subst r g b a.
  change (2 ^ 24) with 16777216. change (2 ^ 16) with 65536.
  change (2 ^ 8) with 256. change (2 ^ 32) with 4294967296 in Hv.
  assert (E : (v / 16777216) mod 256 = v / 16777216)
    by (Z.div_mod_to_equations; lia).
  rewrite E.
  split; [reflexivity|].
  repeat split; Z.div_mod_to_equations; lia.
Qed.

Lemma render_after_register_write_witness :
  video (memory (final (WiiEmulator_connect machine0))) = Some 0%nat
  /\ is_uint32 0x112233FF
  /\ Video_render
       (videos (final (write32 REG_VIDEO_BG_COLOR 0x112233FF
                         (final (WiiEmulator_connect machine0)))) 0%nat)
     = [SDL_SetRenderDrawColor (0x112233FF / 2 ^ 24) ((0x112233FF / 2 ^ 16) mod 2 ^ 8)
          ((0x112233FF / 2 ^ 8) mod 2 ^ 8) (0x112233FF mod 2 ^ 8);
        SDL_RenderClear; SDL_SetRenderDrawColor 255 255 255 255;
        SDL_RenderDrawRect 10 10 200 50; SDL_RenderPresent].
Proof.
  assert (H1 : video (memory (final (WiiEmulator_connect machine0))) = Some 0%nat)
    by reflexivity.
  assert (H2 : is_uint32 0x112233FF) by (vm_compute; split; congruence).
  exact (conj H1 (conj H2
    (proj1 (render_after_register_write (final (WiiEmulator_connect machine0)) 0%nat
              0x112233FF H1 H2)))).
Defined.

(** * The emulator's loop *)

Lemma pressed_bit buttons k : 0 <= k -> pressed buttons (2 ^ k) = Z.testbit buttons k.
Proof. intros Hk. unfold pressed. apply land_pow2_nonzero. exact Hk. Qed.

Lemma apply_buttons_ok b l : Loop_ok l -> Loop_ok (apply_buttons b l).
Proof.
  unfold Loop_ok, apply_buttons. intros [Ht Hc].
  destruct (pressed b 0x00000040), (spacePressed l); cbn [andb negb toneFreq colorCycle].
  all: split;
    [ destruct (pressed b 0x00000010), (pressed b 0x00000020); lia
    | destruct (pressed b 0x00000001), (pressed b 0x00000002),
               (pressed b 0x00000004), (pressed b 0x00000008);
      try apply wrap32_uint32; exact Hc ].
Qed.

(** * The emulator's loop, one iteration *)

Lemma bind_run {A B} (m : M A) (k : A -> M B) s :
  bind m k s
  = (result (k (result (m s)) (final (m s))),
     final (k (result (m s)) (final (m s))),
     events (m s) ++ events (k (result (m s)) (final (m s)))).
Proof.
  unfold bind, result, final, events.
  destruct (m s) as [[a s1] t1]. simpl.
  destruct (k a s1) as [[b s2] t2]. reflexivity.
Qed.

Lemma read32_final s a : final (read32 a s) = s.
Proof.
  destruct (region_of a) as [r|] eqn:Hr.
  - destruct (Z.lt_ge_cases (region_offset r a + 3) (region_size r)) as [L|G].
    + rewrite (read32_in_bounds a r) by assumption. reflexivity.
    + rewrite (read32_out_of_range a r) by assumption. reflexivity.
  - rewrite read32_IO by assumption.
    destruct (a =? REG_VIDEO_BG_COLOR); [reflexivity|].
    destruct (a =? REG_INPUT_STATE); [destruct (input (memory s)); reflexivity|].
    destruct (a =? REG_AUDIO_FREQ); reflexivity.
Qed.

Lemma apply_buttons_keeps b l :
  running (apply_buttons b l) = running l
  /\ memTestDone (apply_buttons b l) = memTestDone l.
Proof.
  unfold apply_buttons.
  destruct (pressed b 0x00000040), (spacePressed l); split; reflexivity.
Qed.

(** The self-test of lines 391-393 in any machine. *)
Lemma memory_test_run s :
  (write32 0x80000000 0xDEADBEEF;; read32 0x80000000) s
  = (0xDEADBEEF, final (write32 0x80000000 0xDEADBEEF s), []).
Proof.
  assert (Hr : region_of 0x80000000 = Some MEM1) by reflexivity.
  assert (Hb : region_offset MEM1 0x80000000 + 3 < region_size MEM1) by reflexivity.
  unfold bind.
  rewrite (write32_in_bounds _ _ MEM1 s Hr Hb).
  rewrite (read32_in_bounds _ MEM1 _ Hr Hb).
  unfold final, set_memory. cbn [fst snd memory backing with_backing with_mem1 mem1 app].
  rewrite load32_store32; [reflexivity | | | ].
  - change (region_offset MEM1 0x80000000) with 0. lia.
  - change (region_offset MEM1 0x80000000) with 0. lia.
  - unfold is_uint32. lia.
Qed.

Lemma tick_quit polled l s :
  Input_shouldQuit (Input_update polled (inputs s 0%nat)) = true ->
  WiiEmulator_tick polled l s
  = (mkLoop false (colorCycle l) (toneFreq l) (audioOn l) (spacePressed l) (memTestDone l),
     poll_input polled s, []).
Proof.
  intros Hq. unfold WiiEmulator_tick, bind, modify, gets.
  cbn [poll_input inputs]. rewrite fn_lookup_insert, Hq. reflexivity.
Qed.

Lemma tick_run polled l s :
  Input_shouldQuit (Input_update polled (inputs s 0%nat)) = false ->
  let s0 := poll_input polled s in
  let rd := read32 REG_INPUT_STATE s0 in
  let l1 := apply_buttons (result rd) l in
  let w1 := write32 REG_VIDEO_BG_COLOR (colorCycle l1) s0 in
  let w2 := write32 REG_AUDIO_FREQ (wrap32 (if audioOn l1 then toneFreq l1 else 0)) (final w1) in
  WiiEmulator_tick polled l s
  = if memTestDone l then (l1, final w2, events rd ++ events w1 ++ events w2)
    else (mkLoop (running l1) (colorCycle l1) (toneFreq l1) (audioOn l1) (spacePressed l1) true,
          final (write32 0x80000000 0xDEADBEEF (final w2)),
          events rd ++ events w1 ++ events w2
          ++ [SDL_Log "Memory test - Written: 0xDEADBEEF, Read: 0x%08X" [0xDEADBEEF]]).
Proof.
  intros Hq. cbv zeta.
  assert (Hq' : Input_shouldQuit (inputs (poll_input polled s) 0%nat) = false).
  { cbn [poll_input inputs]. rewrite fn_lookup_insert. exact Hq. }
  unfold WiiEmulator_tick, bind, modify, gets.
  rewrite Hq'.
  pose proof (read32_final (poll_input polled s) REG_INPUT_STATE) as Ef.
  destruct (read32 REG_INPUT_STATE (poll_input polled s)) as [[a s1] t1].
  unfold final in Ef. cbn [fst snd] in Ef. subst s1.
  unfold result, final, events. cbn [fst snd].
  destruct (apply_buttons_keeps a l) as [_ Em]. rewrite Em.
  destruct (write32 REG_VIDEO_BG_COLOR (colorCycle (apply_buttons a l))
              (poll_input polled s)) as [[[] s2] t2].
  cbn [fst snd].
  destruct (write32 REG_AUDIO_FREQ _ s2) as [[[] s3] t3].
  cbn [fst snd].
  destruct (memTestDone l); cbn [negb].
  - unfold ret. cbn [app]. rewrite (List.app_nil_r t3). reflexivity.
  - pose proof (memory_test_run s3) as Hm. unfold bind in Hm.
    destruct (write32 0x80000000 0xDEADBEEF s3) as [[[] s4] t4].
    destruct (read32 0x80000000 s4) as [[x s5] t5].
    unfold final in Hm. cbn [fst snd] in Hm. inversion Hm; subst.
    unfold emit, ret. cbn [app].
    apply app_eq_nil in H2. destruct H2 as [-> ->].
    cbn [app]. reflexivity.
Qed.

Lemma poll_input_ok polled s : Machine_ok s -> Machine_ok (poll_input polled s).
Proof.
  intros (M1 & M2 & Hc & Hf & Hi).
  refine (conj M1 (conj M2 (conj Hc (conj Hf _)))).
  intros p. cbn [poll_input inputs].
  destruct (Nat.eq_dec 0%nat p) as [<-|Hne].
  - rewrite fn_lookup_insert.
    unfold Input_update. cbn [buttonState]. apply fold_Input_handle_uint32. apply Hi.
  - rewrite fn_lookup_insert_ne by assumption. apply Hi.
Qed.

(** The state after the two register writes of lines 384-385. *)
Lemma publish_state s c f :
  let s2 := final (write32 REG_AUDIO_FREQ f (final (write32 REG_VIDEO_BG_COLOR c s))) in
  videoBgColor (memory s2) = c /\ audioFreqValue (memory s2) = f
  /\ mem1 (memory s2) = mem1 (memory s) /\ mem2 (memory s2) = mem2 (memory s)
  /\ (forall p, video (memory s) = Some p -> bgColor (videos s2 p) = c)
  /\ (forall p, audio (memory s) = Some p -> frequency (audios s2 p) = f)
  /\ inputs s2 = inputs s.
Proof.
  cbv zeta. rewrite !write32_IO by reflexivity.
  change (REG_VIDEO_BG_COLOR =? REG_VIDEO_BG_COLOR) with true.
  change (REG_AUDIO_FREQ =? REG_VIDEO_BG_COLOR) with false.
  change (REG_AUDIO_FREQ =? REG_INPUT_STATE) with false.
  change (REG_AUDIO_FREQ =? REG_AUDIO_FREQ) with true. cbv iota.
  destruct (video (memory s)) as [pv|] eqn:Ev;
    unfold final; cbn [fst snd memory set_memory with_videoBgColor audio];
    destruct (audio (memory s)) as [pa|] eqn:Ea; simpl;
    repeat split; try congruence; try discriminate;
    intros p Hp; inversion Hp; subst; rewrite fn_lookup_insert; reflexivity.
Qed.

Lemma tick_ok polled l s :
  Loop_ok l -> Loop_ok (result (WiiEmulator_tick polled l s)).
Proof.
  intros Hl.
  destruct (Input_shouldQuit (Input_update polled (inputs s 0%nat))) eqn:Hq.
  - rewrite tick_quit by assumption. exact Hl.
  - rewrite tick_run by assumption. cbv zeta.
    pose proof (apply_buttons_ok
      (result (read32 REG_INPUT_STATE (poll_input polled s))) l Hl) as H1.
    destruct (memTestDone l); exact H1.
Qed.

Lemma tick_machine_ok polled l s :
  Machine_ok s -> Loop_ok l -> Machine_ok (final (WiiEmulator_tick polled l s)).
Proof.
  intros Hs Hl.
  pose proof (poll_input_ok polled s Hs) as H0.
  destruct (Input_shouldQuit (Input_update polled (inputs s 0%nat))) eqn:Hq.
  - rewrite tick_quit by assumption. exact H0.
  - rewrite tick_run by assumption. cbv zeta.
    set (l1 := apply_buttons (result (read32 REG_INPUT_STATE (poll_input polled s))) l).
    assert (H1 : Loop_ok l1) by (apply apply_buttons_ok; exact Hl).
    assert (H2 : Machine_ok (final (write32 REG_AUDIO_FREQ
                   (wrap32 (if audioOn l1 then toneFreq l1 else 0))
                   (final (write32 REG_VIDEO_BG_COLOR (colorCycle l1)
                                   (poll_input polled s)))))).
    { apply write32_ok; [apply wrap32_uint32|].
      apply write32_ok; [apply H1 | exact H0]. }
    destruct (memTestDone l); [exact H2|].
    unfold final at 1. cbn [fst snd].
    apply write32_ok; [unfold is_uint32; lia | exact H2].
Qed.

Lemma ticks_ok queues :
  forall l s, Machine_ok s -> Loop_ok l ->
    Loop_ok (result (WiiEmulator_ticks queues l s))
    /\ Machine_ok (final (WiiEmulator_ticks queues l s)).
Proof.
  induction queues as [|polled rest IH]; intros l s Hs Hl; [split; assumption|].
  cbn [WiiEmulator_ticks]. destruct (running l); [|split; assumption].
  rewrite bind_run. unfold result at 1, final at 1. cbn [fst snd].
  apply IH; [apply tick_machine_ok | apply tick_ok]; assumption.
Qed.

(** Over any run of the loop from its start, [toneFreq] stays within
    [[100, 2000]], [colorCycle] stays a 32-bit value, and the machine keeps
    every byte, register and button state within its type. *)
Theorem loop_values_in_range queues s :
  Machine_ok s ->
  let r := WiiEmulator_ticks queues Loop_start s in
  100 <= toneFreq (result r) <= 2000
  /\ is_uint32 (colorCycle (result r))
  /\ Machine_ok (final r).
Proof.
  intros Hs r.
  assert (H0 : Loop_ok Loop_start).
  { unfold Loop_ok, Loop_start, is_uint32. cbn [toneFreq colorCycle]. lia. }
  destruct (ticks_ok queues Loop_start s Hs H0) as [[Ht Hc] Hm].
  exact (conj Ht (conj Hc Hm)).
Qed.

Lemma loop_values_in_range_witness :
  Machine_ok (final (WiiEmulator_connect machine0))
  /\ 100 <= toneFreq (result (WiiEmulator_ticks
              [[SDL_KEYDOWN SDLK_a]; []; [SDL_KEYUP SDLK_a; SDL_KEYDOWN SDLK_b]]
              Loop_start (final (WiiEmulator_connect machine0)))) <= 2000.
Proof.
  assert (H : Machine_ok (final (WiiEmulator_connect machine0))) by exact machine0_ok.
  exact (conj H (proj1
    (loop_values_in_range
       [[SDL_KEYDOWN SDLK_a]; []; [SDL_KEYUP SDLK_a; SDL_KEYDOWN SDLK_b]]
       (final (WiiEmulator_connect machine0)) H))).
Defined.

Lemma apply_buttons_tone b l :
  100 <= toneFreq l <= 2000 -> 100 <= toneFreq (apply_buttons b l) <= 2000.
Proof.
  intros Ht. unfold apply_buttons.
  destruct (pressed b 0x00000040), (spacePressed l); cbn [andb negb toneFreq];
    destruct (pressed b 0x00000010), (pressed b 0x00000020); lia.
Qed.

(** An iteration that does not quit publishes the loop's variables: after
    it the background-colour register holds [colorCycle] and the
    tone-frequency register holds [toneFreq] when audio is on and 0 when it
    is off, and so do the bound video and audio peripherals. *)
Theorem tick_publishes polled l s :
  Input_shouldQuit (inputs s 0%nat) = false -> ~ In SDL_QUIT polled ->
  100 <= toneFreq l <= 2000 ->
  let r := WiiEmulator_tick polled l s in
  let tone := if audioOn (result r) then toneFreq (result r) else 0 in
  running (result r) = running l
  /\ videoBgColor (memory (final r)) = colorCycle (result r)
  /\ audioFreqValue (memory (final r)) = tone
  /\ (forall p, video (memory s) = Some p ->
                bgColor (videos (final r) p) = colorCycle (result r))
  /\ (forall p, audio (memory s) = Some p -> frequency (audios (final r) p) = tone).
Proof.
  intros Hq0 Hnq Ht r tone. subst tone r.
  assert (Hq : Input_shouldQuit (Input_update polled (inputs s 0%nat)) = false).
  { apply not_true_is_false. intros H. apply Input_update_shouldQuit in H.
    destruct H as [H|H]; [congruence | contradiction]. }
  rewrite tick_run by assumption. cbv zeta.
  set (s0 := poll_input polled s).
  set (l1 := apply_buttons (result (read32 REG_INPUT_STATE s0)) l).
  assert (Hl1 : 100 <= toneFreq l1 <= 2000) by (apply apply_buttons_tone; exact Ht).
  set (f := wrap32 (if audioOn l1 then toneFreq l1 else 0)).
  assert (Ef : f = if audioOn l1 then toneFreq l1 else 0).
  { subst f. apply wrap32_small. destruct (audioOn l1); lia. }
  destruct (publish_state s0 (colorCycle l1) f) as (Pc & Pf & _ & _ & Pv & Pa & _).
  destruct (apply_buttons_keeps (result (read32 REG_INPUT_STATE s0)) l) as [Er _].
  fold l1 in Er.
  destruct (memTestDone l).
  - unfold result, final. cbn [fst snd]. rewrite <- Ef.
    repeat split; assumption.
  - unfold result at 1 2 3 4 5 6 7, final at 1 2 3 4. cbn [fst snd].
    cbn [running colorCycle toneFreq audioOn]. rewrite <- Ef.
    rewrite (write32_in_bounds _ _ MEM1) by reflexivity.
    unfold final at 1 2 3 4, set_memory.
    cbn [fst snd memory videos audios with_backing with_mem1 videoBgColor audioFreqValue].
    repeat split; assumption.
Qed.

Lemma tick_publishes_witness :
  Input_shouldQuit (inputs (final (WiiEmulator_connect machine0)) 0%nat) = false
  /\ ~ In SDL_QUIT [SDL_KEYDOWN SDLK_UP; SDL_KEYDOWN SDLK_SPACE]
  /\ 100 <= toneFreq Loop_start <= 2000
  /\ videoBgColor (memory (final (WiiEmulator_tick
        [SDL_KEYDOWN SDLK_UP; SDL_KEYDOWN SDLK_SPACE] Loop_start
        (final (WiiEmulator_connect machine0)))))
     = colorCycle (result (WiiEmulator_tick
        [SDL_KEYDOWN SDLK_UP; SDL_KEYDOWN SDLK_SPACE] Loop_start
        (final (WiiEmulator_connect machine0)))).
Proof.
  assert (H1 : Input_shouldQuit
                 (inputs (final (WiiEmulator_connect machine0)) 0%nat) = false)
    by reflexivity.
  assert (H2 : ~ In SDL_QUIT [SDL_KEYDOWN SDLK_UP; SDL_KEYDOWN SDLK_SPACE]).
  { simpl. intros [H|[H|H]]; [discriminate H | discriminate H | exact H]. }
  assert (H3 : 100 <= toneFreq Loop_start <= 2000)
    by (vm_compute; split; congruence).
  exact (conj H1 (conj H2 (conj H3
    (proj1 (proj2 (tick_publishes [SDL_KEYDOWN SDLK_UP; SDL_KEYDOWN SDLK_SPACE]
                     Loop_start (final (WiiEmulator_connect machine0)) H1 H2 H3)))))).
Defined.

(** A polled [SDL_QUIT] ends the loop at once: the iteration only updates
    the input state and clears [running]; it reads and writes nothing on the
    bus, calls no peripheral, and no later queue is looked at. *)
Theorem quit_stops_loop polled rest l s :
  running l = true -> In SDL_QUIT polled ->
  WiiEmulator_ticks (polled :: rest) l s
  = (mkLoop false (colorCycle l) (toneFreq l) (audioOn l) (spacePressed l)
            (memTestDone l),
     poll_input polled s, []).
Proof.
  intros Hrun Hin.
  assert (Hq : Input_shouldQuit (Input_update polled (inputs s 0%nat)) = true)
    by (apply Input_update_shouldQuit; right; exact Hin).
  cbn [WiiEmulator_ticks]. rewrite Hrun, bind_run, tick_quit by assumption.
  unfold result, final, events. cbn [fst snd].
  destruct rest; reflexivity.
Qed.

Lemma quit_stops_loop_witness :
  running Loop_start = true
  /\ In SDL_QUIT [SDL_KEYDOWN SDLK_UP; SDL_QUIT]
  /\ events (WiiEmulator_ticks [[SDL_KEYDOWN SDLK_UP; SDL_QUIT]; [SDL_KEYDOWN SDLK_a]]
               Loop_start (final (WiiEmulator_connect machine0))) = [].
Proof.
  assert (H1 : running Loop_start = true) by reflexivity.
  assert (H2 : In SDL_QUIT [SDL_KEYDOWN SDLK_UP; SDL_QUIT])
    by (right; left; reflexivity).
  exact (conj H1 (conj H2
    (f_equal snd (quit_stops_loop [SDL_KEYDOWN SDLK_UP; SDL_QUIT] [[SDL_KEYDOWN SDLK_a]]
                    Loop_start (final (WiiEmulator_connect machine0)) H1 H2)))).
Defined.

Lemma apply_buttons_space_held b l :
  Z.testbit b 6 = true -> spacePressed l = true ->
  audioOn (apply_buttons b l) = audioOn l /\ spacePressed (apply_buttons b l) = true.
Proof.
  intros Hb Hs. unfold apply_buttons.
  change 0x00000040 with (2 ^ 6). rewrite pressed_bit, Hb, Hs by lia.
  split; reflexivity.
Qed.

Lemma apply_buttons_space_down b l :
  Z.testbit b 6 = true -> spacePressed l = false ->
  audioOn (apply_buttons b l) = negb (audioOn l)
  /\ spacePressed (apply_buttons b l) = true.
Proof.
  intros Hb Hs. unfold apply_buttons.
  change 0x00000040 with (2 ^ 6). rewrite pressed_bit, Hb, Hs by lia.
  split; reflexivity.
Qed.

Lemma apply_buttons_all_space_held bs :
  forall l, Forall (fun b => Z.testbit b 6 = true) bs -> spacePressed l = true ->
    audioOn (apply_buttons_all bs l) = audioOn l
    /\ spacePressed (apply_buttons_all bs l) = true.
Proof.
  induction bs as [|b bs IH]; intros l Hbs Hs; [split; [reflexivity | exact Hs]|].
  inversion Hbs as [|? ? Hb Hrest]; subst.
  destruct (apply_buttons_space_held b l Hb Hs) as [Ea Es].
  unfold apply_buttons_all. cbn [fold_left].
  destruct (IH (apply_buttons b l) Hrest Es) as [Ea' Es'].
  unfold apply_buttons_all in Ea', Es'. rewrite Ea', Ea. split; [reflexivity | exact Es'].
Qed.

(** Space is edge-triggered: over any number of consecutive iterations that
    all read the space bit set, starting with space not held, audio is
    toggled exactly once; an iteration that reads the bit clear leaves audio
    as it is and re-arms the toggle. *)
Theorem space_toggles_once b bs l :
  Z.testbit b 6 = true -> Forall (fun b' => Z.testbit b' 6 = true) bs ->
  spacePressed l = false ->
  audioOn (apply_buttons_all (b :: bs) l) = negb (audioOn l)
  /\ spacePressed (apply_buttons_all (b :: bs) l) = true
  /\ forall b0, Z.testbit b0 6 = false ->
       audioOn (apply_buttons b0 (apply_buttons_all (b :: bs) l)) = negb (audioOn l)
       /\ spacePressed (apply_buttons b0 (apply_buttons_all (b :: bs) l)) = false.
Proof.
  intros Hb Hbs Hs.
  destruct (apply_buttons_space_down b l Hb Hs) as [Ea Es].
  destruct (apply_buttons_all_space_held bs (apply_buttons b l) Hbs Es) as [Ea' Es'].
  assert (E : apply_buttons_all (b :: bs) l = apply_buttons_all bs (apply_buttons b l))
    by reflexivity.
  rewrite E, Ea', Ea. split; [reflexivity|]. split; [exact Es'|].
  intros b0 Hb0. unfold apply_buttons at 1 3.
  change 0x00000040 with (2 ^ 6). rewrite pressed_bit, Hb0 by lia.
  cbn [andb negb audioOn spacePressed]. rewrite Ea', Ea. split; reflexivity.
Qed.

Lemma space_toggles_once_witness :
  Z.testbit 0x40 6 = true
  /\ Forall (fun b' => Z.testbit b' 6 = true) [0x41; 0x40]
  /\ spacePressed Loop_start = false
  /\ audioOn (apply_buttons_all [0x40; 0x41; 0x40] Loop_start)
     = negb (audioOn Loop_start).
Proof.
  assert (H1 : Z.testbit 0x40 6 = true) by reflexivity.
  assert (H2 : Forall (fun b' => Z.testbit b' 6 = true) [0x41; 0x40])
    by (constructor; [reflexivity|]; constructor; [reflexivity|]; constructor).
  assert (H3 : spacePressed Loop_start = false) by reflexivity.
  exact (conj H1 (conj H2 (conj H3
    (proj1 (space_toggles_once 0x40 [0x41; 0x40] Loop_start H1 H2 H3))))).
Defined.

Lemma tick_RAM polled l s :
  let r := WiiEmulator_tick polled l s in
  mem2 (memory (final r)) = mem2 (memory s)
  /\ (memTestDone l = true ->
      memTestDone (result r) = true /\ mem1 (memory (final r)) = mem1 (memory s))
  /\ (mem1 (memory (final r)) = mem1 (memory s)
      \/ memTestDone (result r) = true
         /\ mem1 (memory (final r)) = store32 (mem1 (memory s)) 0 0xDEADBEEF).
Proof.
  cbv zeta.
  destruct (Input_shouldQuit (Input_update polled (inputs s 0%nat))) eqn:Hq.
  - rewrite tick_quit by assumption. unfold result, final. cbn [fst snd].
    split; [reflexivity|]. split; [|left; reflexivity].
    intros H. split; [exact H | reflexivity].
  - rewrite tick_run by assumption. cbv zeta.
    set (s0 := poll_input polled s).
    set (l1 := apply_buttons (result (read32 REG_INPUT_STATE s0)) l).
    destruct (publish_state s0 (colorCycle l1)
                (wrap32 (if audioOn l1 then toneFreq l1 else 0)))
      as (_ & _ & P1 & P2 & _).
    change (mem1 (memory s0)) with (mem1 (memory s)) in P1.
    change (mem2 (memory s0)) with (mem2 (memory s)) in P2.
    destruct (apply_buttons_keeps (result (read32 REG_INPUT_STATE s0)) l) as [_ Em].
    fold l1 in Em.
    set (s2 := final (write32 REG_AUDIO_FREQ
                        (wrap32 (if audioOn l1 then toneFreq l1 else 0))
                        (final (write32 REG_VIDEO_BG_COLOR (colorCycle l1) s0)))) in *.
    destruct (memTestDone l) eqn:Ed.
    + unfold result, final. cbn [fst snd].
      split; [exact P2|]. split; [|left; exact P1].
      intros _. split; [exact Em | exact P1].
    + rewrite (write32_in_bounds _ _ MEM1) by reflexivity.
      unfold result, final, set_memory.
      cbn [fst snd memory with_backing with_mem1 mem1 mem2 backing memTestDone].
      change (region_offset MEM1 0x80000000) with 0.
      split; [exact P2|]. split; [discriminate|].
      right. split; [reflexivity|]. rewrite P1. reflexivity.
Qed.

Lemma ticks_step polled rest l s :
  running l = true ->
  final (WiiEmulator_ticks (polled :: rest) l s)
  = final (WiiEmulator_ticks rest (result (WiiEmulator_tick polled l s))
                             (final (WiiEmulator_tick polled l s))).
Proof.
  intros Hr. cbn [WiiEmulator_ticks]. rewrite Hr, bind_run. reflexivity.
Qed.

Lemma ticks_stopped queues l s :
  running l = false -> WiiEmulator_ticks queues l s = (l, s, []).
Proof. intros Hr. destruct queues; cbn [WiiEmulator_ticks]; [|rewrite Hr]; reflexivity. Qed.

Lemma ticks_RAM_done queues :
  forall l s, memTestDone l = true ->
    mem1 (memory (final (WiiEmulator_ticks queues l s))) = mem1 (memory s)
    /\ mem2 (memory (final (WiiEmulator_ticks queues l s))) = mem2 (memory s).
Proof.
  induction queues as [|polled rest IH]; intros l s Hd; [split; reflexivity|].
  destruct (running l) eqn:Hr; [|rewrite ticks_stopped by assumption; split; reflexivity].
  rewrite ticks_step by assumption.
  destruct (tick_RAM polled l s) as (T2 & Td & _).
  destruct (Td Hd) as [Hd' T1].
  destruct (IH _ (final (WiiEmulator_tick polled l s)) Hd') as [I1 I2].
  split; congruence.
Qed.

Lemma ticks_RAM queues :
  forall l s,
    mem2 (memory (final (WiiEmulator_ticks queues l s))) = mem2 (memory s)
    /\ (mem1 (memory (final (WiiEmulator_ticks queues l s))) = mem1 (memory s)
        \/ mem1 (memory (final (WiiEmulator_ticks queues l s)))
           = store32 (mem1 (memory s)) 0 0xDEADBEEF).
Proof.
  induction queues as [|polled rest IH]; intros l s;
    [split; [reflexivity | left; reflexivity]|].
  destruct (running l) eqn:Hr;
    [|rewrite ticks_stopped by assumption; split; [reflexivity | left; reflexivity]].
  rewrite ticks_step by assumption.
  destruct (tick_RAM polled l s) as (T2 & _ & T1).
  destruct T1 as [T1|[Hd T1]].
  - destruct (IH (result (WiiEmulator_tick polled l s))
                 (final (WiiEmulator_tick polled l s))) as [I2 I1].
    split; [congruence|]. rewrite T1 in I1. exact I1.
  - destruct (ticks_RAM_done rest _ (final (WiiEmulator_tick polled l s)) Hd) as [I1 I2].
    split; [congruence|]. right. congruence.
Qed.

(** The loop writes RAM at most once: after any run, from any loop state,
    MEM2 is untouched and MEM1 is either untouched or differs only by the
    test word 0xDEADBEEF stored at offset 0; once the self-test is done
    ([memTestDone]), the loop leaves all of RAM alone. *)
Theorem loop_writes_RAM_once queues l s :
  let s' := final (WiiEmulator_ticks queues l s) in
  mem2 (memory s') = mem2 (memory s)
  /\ (mem1 (memory s') = mem1 (memory s)
      \/ mem1 (memory s') = store32 (mem1 (memory s)) 0 0xDEADBEEF)
  /\ (memTestDone l = true -> mem1 (memory s') = mem1 (memory s)).
Proof.
  cbv zeta. destruct (ticks_RAM queues l s) as [H2 H1].
  split; [exact H2|]. split; [exact H1|].
  intros Hd. apply (ticks_RAM_done queues l s Hd).
Qed.

Lemma loop_writes_RAM_once_witness :
  memTestDone (mkLoop true 0 440 false false true) = true
  /\ mem1 (memory (final (WiiEmulator_ticks [[]; [SDL_KEYDOWN SDLK_UP]]
                            (mkLoop true 0 440 false false true) machine0)))
     = mem1 (memory machine0).
Proof.
  assert (H : memTestDone (mkLoop true 0 440 false false true) = true) by reflexivity.
  exact (conj H
    (proj2 (proj2 (loop_writes_RAM_once [[]; [SDL_KEYDOWN SDLK_UP]]
                     (mkLoop true 0 440 false false true) machine0)) H)).
Defined.
